(** * Rate-limit admission and the Crypto.com order-book data source

    A shallow embedding of
    - [hummingbot/core/api_throttler/varied_rate_api_throttler.py]
    - [hummingbot/connector/exchange/crypto_com/crypto_com_api_order_book_data_source.py]

    Python integers are [Z], [Seconds] (a float in the source) is an exact
    rational [Qc], dictionaries are [gmap]s, decoded JSON documents are
    values of the inductive type [json], and coroutines are functions in a
    small state-and-exception monad whose suspension points ask an
    environment for their outcome. *)

From stdpp Require Import gmap strings list fin_maps.
From Stdlib Require Import ZArith QArith Qcanon Qround Ascii Lqa.

Open Scope Z_scope.
Set Warnings "-register-all".

(** ** Python exceptions and results *)

Module Py.

(** The exceptions that the modelled code raises or lets through.
    [CancelledError] derives from [BaseException] (Python 3.8 and later), so
    an [except Exception] clause does not catch it. *)
Inductive exn :=
| CancelledError
| KeyError (key : string)
| IndexError
| TypeError
| AttributeError
| IOError (status : Z)
| ClientError
| TimeoutError
| JSONDecodeError
| RuntimeError.

Definition is_Exception (e : exn) : bool :=
  match e with
  | CancelledError => false
  | _ => true
  end.

(** The result of running a piece of code: a value, a raised exception, or
    [Pending] when the fuel given to a loop ran out while the coroutine was
    still running. *)
Inductive res (A : Type) :=
| Ret (a : A)
| Raise (e : exn)
| Pending.
Arguments Ret {A} a.
Arguments Raise {A} e.
Arguments Pending {A}.

#[global] Instance exn_eq_dec : EqDecision exn.
Proof. solve_decision. Defined.

End Py.
Import Py.

(** ** The varied-rate throttler *)

Module Throttler.

Definition Seconds := Qc.

(** Modelled from the spec: [data_types.RateLimit], declared outside the
    two modelled files: endpoint identifier, integer limit, window length
    and weight. The code reads [limit], [path_url] and [weight]. *)
Record RateLimit := {
  limit : Z;
  time_interval : Seconds;
  path_url : string;
  weight : Z
}.

(** Modelled from the spec: [data_types.TaskLog], declared outside the two
    modelled files: timestamp, endpoint identifier and weight. The code
    reads [path_url]. *)
Record TaskLog := {
  timestamp : Seconds;
  task_path_url : string;
  task_weight : Z
}.

(** [VariedRateThrottler]: the fields set by the base-class constructor.
    [_task_logs] is the one deque shared with every request context. *)
Record VariedRateThrottler := {
  _path_rate_limit_map : gmap string RateLimit;
  _task_logs : list TaskLog;
  _period_safety_margin : Seconds;
  _retry_interval : Seconds
}.

(** [VariedRateRequestContext]: the context keeps a reference to the
    throttler's deque, so the log is not copied into the record; the
    operations below take the shared log as an argument. *)
Record VariedRateRequestContext := {
  _rate_limit : RateLimit;
  ctx_period_safety_margin : Seconds;
  ctx_retry_interval : Seconds
}.

(** [VariedRateThrottler.execute_task]: a dictionary subscript, which raises
    [KeyError] for a path without an entry. *)
Definition execute_task (self : VariedRateThrottler) (path_url : string)
  : res VariedRateRequestContext :=
  match _path_rate_limit_map self !! path_url with
  | Some rate_limit =>
      Ret {| _rate_limit := rate_limit;
             ctx_period_safety_margin := _period_safety_margin self;
             ctx_retry_interval := _retry_interval self |}
  | None => Raise (KeyError path_url)
  end.

(** The tasks of the log recorded for the path of [rate_limit]
    (the list comprehension of [within_capacity]). *)
Definition tasks_of (p : string) (task_logs : list TaskLog) : list TaskLog :=
  filter (λ task, task_path_url task = p) task_logs.

(** [VariedRateRequestContext.within_capacity]. *)
Definition within_capacity (self : VariedRateRequestContext)
    (task_logs : list TaskLog) : bool :=
  let current_capacity :=
    limit (_rate_limit self)
    - Z.of_nat (length (tasks_of (path_url (_rate_limit self)) task_logs)) in
  bool_decide (current_capacity - weight (_rate_limit self) >= 0).

(** Modelled from the spec: the base-class constructor, outside the two
    modelled files, builds the table from endpoint to rate limit out of the
    configured list (a dict comprehension keyed by [path_url], so a later
    entry for the same path replaces an earlier one) and starts with an
    empty log. *)
Definition new_throttler (rate_limit_list : list RateLimit)
    (period_safety_margin retry_interval : Seconds) : VariedRateThrottler :=
  {| _path_rate_limit_map :=
       foldl (λ m rate_limit, <[path_url rate_limit := rate_limit]> m)
             ∅ rate_limit_list;
     _task_logs := [];
     _period_safety_margin := period_safety_margin;
     _retry_interval := retry_interval |}.

Definition set_task_logs (self : VariedRateThrottler)
    (task_logs : list TaskLog) : VariedRateThrottler :=
  {| _path_rate_limit_map := _path_rate_limit_map self;
     _task_logs := task_logs;
     _period_safety_margin := _period_safety_margin self;
     _retry_interval := _retry_interval self |}.

(** Modelled from the spec: an entry of the evaluated endpoint is in the
    window while its age is below the window length less the safety margin;
    [flush] drops the entries of that endpoint that are not. The base class
    that prunes the log is outside the two modelled files. *)
Definition in_window (now : Seconds) (self : VariedRateRequestContext)
    (task : TaskLog) : Prop :=
  task_path_url task = path_url (_rate_limit self) →
  (now - timestamp task
     < time_interval (_rate_limit self) - ctx_period_safety_margin self)%Qc.

#[global] Instance in_window_dec now self task : Decision (in_window now self task).
Proof. unfold in_window. apply _. Defined.

(** Modelled from the spec: the pruning of the base class, which removes
    the entries that left the window. *)
Definition flush (now : Seconds) (self : VariedRateRequestContext)
    (task_logs : list TaskLog) : list TaskLog :=
  filter (in_window now self) task_logs.

Inductive admission := Granted | Suspended.

Section Acquire.

(** The pruning discipline is a parameter: the specification allows eager
    and lazy pruning; [flush] above is one instance. *)
Variable prune : Seconds → VariedRateRequestContext → list TaskLog → list TaskLog.

(** Modelled from the spec (admission algorithm, steps 2 to 4): one
    evaluation of the admission loop. The decision is the source's
    [within_capacity]; on admission the entry for the request is appended
    to the shared log. *)
Definition evaluate (now : Seconds) (self : VariedRateRequestContext)
    (task_logs : list TaskLog) : admission * list TaskLog :=
  let live := prune now self task_logs in
  if within_capacity self live
  then (Granted,
        live ++ [ {| timestamp := now;
                     task_path_url := path_url (_rate_limit self);
                     task_weight := weight (_rate_limit self) |} ])
  else (Suspended, live).

(** One request against the throttler at time [now]: [execute_task]
    followed by one evaluation. *)
Definition request (now : Seconds) (path_url : string)
    (self : VariedRateThrottler) : res admission * VariedRateThrottler :=
  match execute_task self path_url with
  | Ret context =>
      let '(a, task_logs) := evaluate now context (_task_logs self) in
      (Ret a, set_task_logs self task_logs)
  | Raise e => (Raise e, self)
  | Pending => (Pending, self)
  end.

(** A sequence of requests, oldest first; every prefix is an observation
    point. *)
Definition run (requests : list (Seconds * string))
    (self : VariedRateThrottler) : VariedRateThrottler :=
  foldl (λ thr r, (request r.1 r.2 thr).2) self requests.

(** Modelled from the spec (step 4): the admission loop of [acquire].
    Attempt [k] reads the clock, evaluates, and when not admitted suspends
    in [asyncio.sleep(retry_interval)], whose outcome ([None]: the sleep
    elapsed; [Some e]: [e] was raised at the suspension point, a
    cancellation being [CancelledError]) comes from the environment. *)
Fixpoint acquire (fuel : nat) (clock : nat → Seconds)
    (sleep_outcome : nat → option exn) (k : nat)
    (self : VariedRateRequestContext) (task_logs : list TaskLog)
  : res unit * list TaskLog :=
  match fuel with
  | O => (Pending, task_logs)
  | S fuel' =>
      match evaluate (clock k) self task_logs with
      | (Granted, task_logs') => (Ret tt, task_logs')
      | (Suspended, task_logs') =>
          match sleep_outcome k with
          | Some e => (Raise e, task_logs')
          | None => acquire fuel' clock sleep_outcome (S k) self task_logs'
          end
      end
  end.

End Acquire.

(** The usage the specification speaks of: the sum of the weights of the
    log entries recorded for one endpoint. *)
Definition usage_weight (p : string) (task_logs : list TaskLog) : Z :=
  foldr Z.add 0 (task_weight <$> tasks_of p task_logs).

(** The admission test in the specification's words:
    [current_usage + weight ≤ limit] with [current_usage] a sum of weights. *)
Definition spec_within_capacity (self : VariedRateRequestContext)
    (task_logs : list TaskLog) : bool :=
  bool_decide (usage_weight (path_url (_rate_limit self)) task_logs
               + weight (_rate_limit self) ≤ limit (_rate_limit self)).

End Throttler.

(** ** Decoded JSON documents and the Python operations used on them *)

Module Json.

(** What [json.loads] produces: [None], booleans, integers, floats (kept as
    exact rationals), strings, lists and dictionaries (the items in
    insertion order; a subscript finds the first item with the key). *)
Inductive json :=
| JNull
| JBool (b : bool)
| JInt (n : Z)
| JFloat (q : Qc)
| JStr (s : string)
| JList (elements : list json)
| JObj (items : list (string * json)).

Fixpoint assoc (key : string) (items : list (string * json)) : option json :=
  match items with
  | [] => None
  | (k, v) :: rest => if decide (k = key) then Some v else assoc key rest
  end.

(** [x is None] *)
Definition is_None (x : json) : bool :=
  match x with
  | JNull => true
  | _ => false
  end.

(** [d.get(key)]: only dictionaries have the method. *)
Definition dict_get (key : string) (d : json) : res json :=
  match d with
  | JObj items => Ret (default JNull (assoc key items))
  | _ => Raise AttributeError
  end.

(** [x[key]] with a string key. *)
Definition getitem (key : string) (x : json) : res json :=
  match x with
  | JObj items =>
      match assoc key items with
      | Some v => Ret v
      | None => Raise (KeyError key)
      end
  | _ => Raise TypeError
  end.

(** [x[0]]: the first element of a list, the first character of a string;
    a dictionary is searched for the key [0], which a decoded JSON object,
    whose keys are strings, never has. *)
Definition getitem_0 (x : json) : res json :=
  match x with
  | JList (first :: _) => Ret first
  | JList [] => Raise IndexError
  | JStr (String c _) => Ret (JStr (String c EmptyString))
  | JStr EmptyString => Raise IndexError
  | JObj _ => Raise (KeyError "0")
  | _ => Raise TypeError
  end.

Fixpoint characters (s : string) : list json :=
  match s with
  | EmptyString => []
  | String c rest => JStr (String c EmptyString) :: characters rest
  end.

(** [for item in x]: the elements of a list, the keys of a dictionary, the
    characters of a string. *)
Definition iterate (x : json) : res (list json) :=
  match x with
  | JList elements => Ret elements
  | JObj items => Ret ((λ kv, JStr kv.1) <$> items)
  | JStr s => Ret (characters s)
  | _ => Raise TypeError
  end.

(** [x == s] for a string [s] *)
Definition eq_str (x : json) (s : string) : bool :=
  match x with
  | JStr s' => bool_decide (s' = s)
  | _ => false
  end.

End Json.
Import Json.

(** ** Order-book messages and the exchange helpers *)

Module Exchange.

Inductive OrderBookMessageType := SNAPSHOT | DIFF | TRADE.

(** Modelled from the spec: a published message carries its kind, the
    trading pair (the [metadata] of the source), the timestamp in seconds
    and the payload. [CryptoComOrderBook], which builds it, is outside the
    two modelled files. *)
Record OrderBookMessage := {
  message_type : OrderBookMessageType;
  trading_pair : string;
  message_timestamp : Z;
  content : json
}.

(** Modelled from the spec: [CryptoComOrderBook.snapshot_message_from_exchange]
    and [trade_message_from_exchange], outside the two modelled files, wrap
    the payload, the timestamp and the trading pair of the metadata into a
    message of the given kind. *)
Definition snapshot_message_from_exchange (msg : json) (timestamp : Z)
    (trading_pair : string) : OrderBookMessage :=
  {| message_type := SNAPSHOT; trading_pair := trading_pair;
     message_timestamp := timestamp; content := msg |}.

Definition trade_message_from_exchange (msg : json) (timestamp : Z)
    (trading_pair : string) : OrderBookMessage :=
  {| message_type := TRADE; trading_pair := trading_pair;
     message_timestamp := timestamp; content := msg |}.

(** Modelled from the spec: [crypto_com_utils.ms_timestamp_to_s], outside
    the two modelled files, turns the feed's millisecond timestamp into
    seconds (rounding down). *)
Definition ms_timestamp_to_s (ms : json) : res Z :=
  match ms with
  | JInt n => Ret (n `div` 1000)
  | JFloat q => Ret (Qfloor (q / Qc_of_Z 1000)%Qc)
  | JBool b => Ret 0
  | _ => Raise TypeError
  end.

(** The constants of [crypto_com_constants] and the symbol translation of
    [crypto_com_utils], which are outside the two modelled files. *)
Class Constants := {
  GET_TICKER_PATH_URL : string;
  GET_ORDER_BOOK_PATH_URL : string;
  get_rest_url : string → string;
  convert_to_exchange_trading_pair : string → string;
  convert_from_exchange_trading_pair : string → string
}.

(** The symbol translation applied to a decoded value: a string method, so
    anything but a string raises. *)
Definition convert_from_exchange `{Constants} (x : json) : res string :=
  match x with
  | JStr s => Ret (convert_from_exchange_trading_pair s)
  | _ => Raise AttributeError
  end.

End Exchange.
Import Exchange.

(** ** Coroutines: a state-and-exception monad over an environment *)

Module Aio.

Import Throttler.

Inductive outcome (A : Type) :=
| Ok (a : A)
| Failed (e : exn).
Arguments Ok {A} a.
Arguments Failed {A} e.

(** An HTTP response: its status, and what awaiting [response.json()]
    gives. *)
Record response := {
  status : Z;
  json_outcome : outcome json
}.

Inductive log_level := DEBUG | NETWORK | ERROR.

(** What a coroutine does to the outside, in order. *)
Inductive event :=
| Acquire (path_url : string)
| Get (url : string) (params : list (string * json))
| Created (ws : nat)
| Connect (ws : nat)
| Subscribe (ws : nat) (channels : list string)
| Receive (ws : nat)
| Disconnect (ws : nat)
| Publish (msg : OrderBookMessage)
| Log (level : log_level) (message : string)
| Sleep (delay : Seconds).

(** The environment decides the outcome of every suspension point, by the
    number of suspension points passed before it ([tick]): [None] or [Ok]
    when the awaited call returns, an exception when it raises there. A
    cancellation delivered at a suspension point is the outcome
    [CancelledError]. *)
Record env := {
  utcnow : nat → Seconds;
  clock : nat → Seconds;
  acquire_outcome : string → nat → option exn;
  get_outcome : string → list (string * json) → nat → outcome response;
  connect_outcome : nat → option exn;
  subscribe_outcome : nat → option exn;
  message_outcome : nat → outcome (option json);
  disconnect_outcome : nat → option exn;
  sleep_outcome : nat → option exn
}.

Record world := {
  trace : list event;
  tick : nat;
  sessions : nat
}.

Definition M (A : Type) : Type := env → world → res A * world.

#[global] Instance M_ret : MRet M := λ A a E w, (Ret a, w).

#[global] Instance M_bind : MBind M := λ A B f m E w,
  match m E w with
  | (Ret a, w') => f a E w'
  | (Raise e, w') => (Raise e, w')
  | (Pending, w') => (Pending, w')
  end.

#[global] Instance res_ret : MRet res := λ A a, Ret a.

#[global] Instance res_bind : MBind res := λ A B f m,
  match m with
  | Ret a => f a
  | Raise e => Raise e
  | Pending => Pending
  end.

(** A computation without effects. *)
Definition lift {A} (r : res A) : M A := λ E w, (r, w).

Definition raise {A} (e : exn) : M A := lift (Raise e).

Definition of_option (o : option exn) : outcome unit :=
  match o with
  | None => Ok tt
  | Some e => Failed e
  end.

Definition record (ev : event) (w : world) : world :=
  {| trace := trace w ++ [ev]; tick := tick w; sessions := sessions w |}.

Definition advance (w : world) : world :=
  {| trace := trace w; tick := S (tick w); sessions := sessions w |}.

(** An effect that does not suspend. *)
Definition emit (ev : event) : M unit := λ E w, (Ret tt, record ev w).

(** A suspension point: the call is recorded, the environment gives its
    outcome. *)
Definition suspend {A} (ev : event) (answer : env → nat → outcome A) : M A :=
  λ E w,
    match answer E (tick w) with
    | Ok a => (Ret a, advance (record ev w))
    | Failed e => (Raise e, advance (record ev w))
    end.

(** [try: body / except asyncio.CancelledError: raise / except Exception:
    handler] *)
Definition try_except {A} (body handler : M A) : M A := λ E w,
  match body E w with
  | (Raise e, w') =>
      if is_Exception e then handler E w' else (Raise e, w')
  | r => r
  end.

(** [try: body / finally: final]: an exception raised by [final] replaces
    the result of [body]. *)
Definition try_finally {A} (body : M A) (final : M unit) : M A := λ E w,
  match body E w with
  | (Pending, w') => (Pending, w')
  | (r, w') =>
      match final E w' with
      | (Ret _, w'') => (r, w'')
      | (Raise e, w'') => (Raise e, w'')
      | (Pending, w'') => (Pending, w'')
      end
  end.

(** [for x in xs: body x] *)
Fixpoint for_each {A} (xs : list A) (body : A → M unit) : M unit :=
  match xs with
  | [] => mret tt
  | x :: rest => body x ;; for_each rest body
  end.

(** [async for x in source: body x], for a source that yields [Some x] or
    ends with [None]. *)
Fixpoint async_for {A} (fuel : nat) (next : M (option A)) (body : A → M unit)
  : M unit :=
  match fuel with
  | O => lift Pending
  | S fuel' =>
      x ← next;
      match x with
      | None => mret tt
      | Some a => body a ;; async_for fuel' next body
      end
  end.

(** [while True: body] *)
Fixpoint forever (fuel : nat) (body : M unit) : M unit :=
  match fuel with
  | O => lift Pending
  | S fuel' => body ;; forever fuel' body
  end.

(** [for x in xs] collecting the values of a computation that may raise. *)
Fixpoint collect {A B} (f : A → res B) (xs : list A) : res (list B) :=
  match xs with
  | [] => Ret []
  | x :: rest => y ← f x; ys ← collect f rest; Ret (y :: ys)
  end.

(** The calls of the modelled code. *)
(** [async with throttler.execute_task(path_url)]: entering the context
    awaits the throttler's permit. *)
Definition with_execute_task (path_url : string) : M unit :=
  suspend (Acquire path_url) (λ E k, of_option (acquire_outcome E path_url k)).

Definition client_get (url : string) (params : list (string * json)) : M response :=
  suspend (Get url params) (λ E k, get_outcome E url params k).

Definition response_json (r : response) : M json :=
  lift match json_outcome r with
       | Ok j => Ret j
       | Failed e => Raise e
       end.

(** Modelled from the spec: [CryptoComWebsocket], outside the two modelled
    files, is the stream session: a fresh one is created per attempt, and
    creating it has no failure mode; [connect], [subscribe], the message
    sequence [on_message] and [disconnect] are suspension points. Sessions
    are numbered in the order of their creation. *)
Definition new_session : M nat := λ E w,
  (Ret (sessions w),
   {| trace := trace w ++ [Created (sessions w)]; tick := tick w;
      sessions := S (sessions w) |}).

Definition connect (ws : nat) : M unit :=
  suspend (Connect ws) (λ E k, of_option (connect_outcome E k)).

Definition subscribe (ws : nat) (channels : list string) : M unit :=
  suspend (Subscribe ws channels) (λ E k, of_option (subscribe_outcome E k)).

Definition on_message (ws : nat) : M (option json) :=
  suspend (Receive ws) (λ E k, message_outcome E k).

Definition disconnect (ws : nat) : M unit :=
  suspend (Disconnect ws) (λ E k, of_option (disconnect_outcome E k)).

Definition sleep (delay : Seconds) : M unit :=
  suspend (Sleep delay) (λ E k, of_option (sleep_outcome E k)).

(** [output.put_nowait(msg)] on the unbounded output queue. *)
Definition put_nowait (msg : OrderBookMessage) : M unit := emit (Publish msg).

(** [self.logger().debug], [.network] and [.error]. *)

Definition logger (level : log_level) (message : string) : M unit :=
  emit (Log level message).

(** The wall clock, read without suspending: [pd.Timestamp.utcnow()] and
    [time.time()] are two readings, taken one after the other; the
    environment gives both, and nothing ties the second to the first. *)
Definition Timestamp_utcnow : M Seconds := λ E w, (Ret (utcnow E (tick w)), w).

Definition time : M Seconds := λ E w, (Ret (clock E (tick w)), w).

(** The messages published and the log entries written along a trace. *)
Definition published (t : list event) : list OrderBookMessage :=
  omap (λ ev, match ev with Publish msg => Some msg | _ => None end) t.

Definition logged (level : log_level) (t : list event) : list string :=
  omap (λ ev, match ev with
              | Log l message =>
                  match l, level with
                  | DEBUG, DEBUG | NETWORK, NETWORK | ERROR, ERROR => Some message
                  | _, _ => None
                  end
              | _ => None
              end) t.

End Aio.
Import Aio.

(** ** [CryptoComAPIOrderBookDataSource] *)

Module DataSource.

Section WithConstants.

Context `{Constants}.

(** The list comprehension of [get_last_traded_prices]:
    [[o["a"] for o in data if o["i"] == symbol]]. *)
Fixpoint last_trade_of (symbol : string) (data : list json) : res (list json) :=
  match data with
  | [] => Ret []
  | o :: rest =>
      i ← getitem "i" o;
      if eq_str i symbol
      then a ← getitem "a" o;
           tail ← last_trade_of symbol rest;
           Ret (a :: tail)
      else last_trade_of symbol rest
  end.

(** The loop over the requested pairs, updating the [result] dictionary. *)
Fixpoint last_traded_prices_loop (resp_json : json) (trading_pairs : list string)
    (result : gmap string json) : res (gmap string json) :=
  match trading_pairs with
  | [] => Ret result
  | t_pair :: rest =>
      r ← getitem "result" resp_json;
      d ← getitem "data" r;
      data ← iterate d;
      last_trade ← last_trade_of (convert_to_exchange_trading_pair t_pair) data;
      match last_trade with
      | first :: _ =>
          if is_None first
          then last_traded_prices_loop resp_json rest result
          else last_traded_prices_loop resp_json rest (<[t_pair := first]> result)
      | [] => last_traded_prices_loop resp_json rest result
      end
  end.

Definition get_last_traded_prices (trading_pairs : list string)
  : M (gmap string json) :=
  with_execute_task GET_TICKER_PATH_URL ;;
  resp ← client_get (get_rest_url GET_TICKER_PATH_URL) [];
  resp_json ← response_json resp;
  lift (last_traded_prices_loop resp_json trading_pairs ∅).

(** The list comprehension of [fetch_trading_pairs]. *)
Definition trading_pairs_of (data : json) : res (list string) :=
  r ← getitem "result" data;
  d ← getitem "data" r;
  items ← iterate d;
  collect (λ item, i ← getitem "i" item; convert_from_exchange i) items.

Definition fetch_trading_pairs : M (list string) :=
  with_execute_task GET_TICKER_PATH_URL ;;
  response ← client_get (get_rest_url GET_TICKER_PATH_URL) [];
  if decide (status response = 200)
  then try_except
         (data ← response_json response; lift (trading_pairs_of data))
         (mret [])
  else mret [].

Definition order_book_params (trading_pair : string) : list (string * json) :=
  [("depth", JInt 150);
   ("instrument_name", JStr (convert_to_exchange_trading_pair trading_pair))].

Definition get_order_book_data (trading_pair : string) : M json :=
  with_execute_task GET_ORDER_BOOK_PATH_URL ;;
  orderbook_response ←
    client_get (get_rest_url GET_ORDER_BOOK_PATH_URL)
               (order_book_params trading_pair);
  if decide (status orderbook_response ≠ 200)
  then raise (IOError (status orderbook_response))
  else
    orderbook_data ← response_json orderbook_response;
    lift (r ← getitem "result" orderbook_data;
          d ← getitem "data" r;
          getitem_0 d).

(** *** The trade relay *)

Definition trade_channels (trading_pairs : list string) : list string :=
  (λ pair, "trade." +:+ convert_to_exchange_trading_pair pair) <$> trading_pairs.

(** The body of the [for trade in ...] loop. *)
Definition relay_trade (trade : json) : M unit :=
  t ← lift (getitem "t" trade);
  trade_timestamp ← lift (ms_timestamp_to_s t);
  i ← lift (getitem "i" trade);
  pair ← lift (convert_from_exchange i);
  put_nowait (trade_message_from_exchange trade trade_timestamp pair).

(** The body of the [async for response in ws.on_message()] loop. *)
Definition trades_on_response (response : json) : M unit :=
  r ← lift (dict_get "result" response);
  if is_None r then mret tt
  else
    trades ← lift (result ← getitem "result" response;
                   d ← getitem "data" result;
                   iterate d);
    for_each trades relay_trade.

Definition trades_session (fuel : nat) (trading_pairs : list string) (ws : nat)
  : M unit :=
  connect ws ;;
  subscribe ws (trade_channels trading_pairs) ;;
  async_for fuel (on_message ws) trades_on_response.

Definition trades_backoff : M unit :=
  logger ERROR "Unexpected error." ;;
  sleep (Qc_of_Z 5).

(** One round of the [while True] loop. The stream session is created by
    the first statement of the [try] block; creating it has no failure
    mode, so [ws] is bound when the [finally] clause runs. *)
Definition trades_round (fuel : nat) (trading_pairs : list string) : M unit :=
  ws ← new_session;
  try_finally
    (try_except (trades_session fuel trading_pairs ws) trades_backoff)
    (disconnect ws).

Definition listen_for_trades (fuel : nat) (trading_pairs : list string) : M unit :=
  forever fuel (trades_round fuel trading_pairs).

(** *** The diff relay *)

Definition book_channels (trading_pairs : list string) : list string :=
  (λ pair, "book." +:+ convert_to_exchange_trading_pair pair +:+ ".150")
    <$> trading_pairs.

Definition diffs_on_response (response : json) : M unit :=
  r ← lift (dict_get "result" response);
  if is_None r then mret tt
  else
    order_book_data ← lift (result ← getitem "result" response;
                            d ← getitem "data" result;
                            getitem_0 d);
    t ← lift (getitem "t" order_book_data);
    timestamp ← lift (ms_timestamp_to_s t);
    pair ← lift (result ← getitem "result" response;
                 name ← getitem "instrument_name" result;
                 convert_from_exchange name);
    put_nowait (snapshot_message_from_exchange order_book_data timestamp pair).

Definition diffs_session (fuel : nat) (trading_pairs : list string) (ws : nat)
  : M unit :=
  connect ws ;;
  subscribe ws (book_channels trading_pairs) ;;
  async_for fuel (on_message ws) diffs_on_response.

Definition diffs_backoff : M unit :=
  logger NETWORK "Unexpected error with WebSocket connection." ;;
  sleep (Qc_of_Z 30).

Definition diffs_round (fuel : nat) (trading_pairs : list string) : M unit :=
  ws ← new_session;
  try_finally
    (try_except (diffs_session fuel trading_pairs ws) diffs_backoff)
    (disconnect ws).

Definition listen_for_order_book_diffs (fuel : nat) (trading_pairs : list string)
  : M unit :=
  forever fuel (diffs_round fuel trading_pairs).

(** *** The periodic snapshot relay *)

(** The start of the hour after the reading [utcnow]: the reading with
    minute, second and microsecond cleared, plus one hour. *)
Definition next_hour (utcnow : Throttler.Seconds) : Throttler.Seconds :=
  Qc_of_Z (3600 * Qfloor (utcnow / Qc_of_Z 3600)%Qc + 3600).

Definition snapshot_backoff : M unit :=
  logger NETWORK "Unexpected error with WebSocket connection." ;;
  sleep (Qc_of_Z 5).

(** The body of the [for trading_pair in self._trading_pairs] loop. *)
Definition snapshot_of_pair (trading_pair : string) : M unit :=
  try_except
    (snapshot ← get_order_book_data trading_pair;
     t ← lift (getitem "t" snapshot);
     snapshot_timestamp ← lift (ms_timestamp_to_s t);
     put_nowait (snapshot_message_from_exchange snapshot snapshot_timestamp
                                                trading_pair) ;;
     logger DEBUG ("Saved order book snapshot for " +:+ trading_pair) ;;
     sleep (Qc_of_Z 5))
    snapshot_backoff.

(** The [try] block of the [while True] loop: one refresh cycle. The hour
    is taken from [pd.Timestamp.utcnow()], the delay from a later
    [time.time()]. *)
Definition snapshot_cycle (trading_pairs : list string) : M unit :=
  for_each trading_pairs snapshot_of_pair ;;
  utcnow ← Timestamp_utcnow;
  now ← time;
  sleep (next_hour utcnow - now)%Qc.

Definition snapshots_round (trading_pairs : list string) : M unit :=
  try_except
    (snapshot_cycle trading_pairs)
    (logger ERROR "Unexpected error." ;; sleep (Qc_of_Z 5)).

Definition listen_for_order_book_snapshots (fuel : nat)
    (trading_pairs : list string) : M unit :=
  forever fuel (snapshots_round trading_pairs).

End WithConstants.

End DataSource.
Import DataSource.

(** ** Concrete configurations, payloads and environments *)

Module Examples.

Import Throttler.

(** A throttler with one endpoint of limit 3 and weight 2, window one
    second, safety margin and retry interval a tenth of a second. *)
Definition heavy_limit : RateLimit :=
  {| limit := 3; time_interval := Qc_of_Z 1; path_url := "public/get-book";
     weight := 2 |}.

Definition heavy_throttler : VariedRateThrottler :=
  new_throttler [heavy_limit] (Q2Qc (1 # 10)) (Q2Qc (1 # 10)).

Definition heavy_context : VariedRateRequestContext :=
  {| _rate_limit := heavy_limit;
     ctx_period_safety_margin := Q2Qc (1 # 10);
     ctx_retry_interval := Q2Qc (1 # 10) |}.

(** Two requests at the same instant. *)
Definition two_requests : list (Seconds * string) :=
  [(Qc_of_Z 0, "public/get-book"); (Qc_of_Z 0, "public/get-book")].

Definition light_limit : RateLimit :=
  {| limit := 2; time_interval := Qc_of_Z 1; path_url := "public/get-ticker";
     weight := 1 |}.

(** The symbol translation of the exchange: [BTC-USDT] on the client side,
    [BTC_USDT] on the exchange side. *)
Fixpoint replace_char (a b : Ascii.ascii) (s : string) : string :=
  match s with
  | EmptyString => EmptyString
  | String c rest =>
      String (if decide (c = a) then b else c) (replace_char a b rest)
  end.

Definition crypto_com : Constants :=
  {| GET_TICKER_PATH_URL := "public/get-ticker";
     GET_ORDER_BOOK_PATH_URL := "public/get-book";
     get_rest_url := λ path_url, "https://api.crypto.com/v2/" +:+ path_url;
     convert_to_exchange_trading_pair := replace_char "-"%char "_"%char;
     convert_from_exchange_trading_pair := replace_char "_"%char "-"%char |}.

Definition start : world := {| trace := []; tick := 0; sessions := 0 |}.

(** An order book of the exchange, and a stream payload carrying two
    elements for [BTC_USDT]. *)
Definition book (t : Z) : json :=
  JObj [("t", JInt t); ("i", JStr "BTC_USDT");
        ("bids", JList []); ("asks", JList [])].

Definition book_payload : json :=
  JObj [("result",
         JObj [("instrument_name", JStr "BTC_USDT");
               ("data", JList [book 1700000000000; book 1700000000500])])].

Definition book_response : response :=
  {| status := 200; json_outcome := Ok book_payload |}.

(** A ticker body: the first entry for [BTC_USDT] has no price, a later
    one has; [XRP_USDT] is missing. *)
Definition ticker_data : list json :=
  [JObj [("i", JStr "BTC_USDT"); ("a", JNull)];
   JObj [("i", JStr "BTC_USDT"); ("a", JInt 5)];
   JObj [("i", JStr "ETH_USDT"); ("a", JInt 7)]].

Definition ticker_response : response :=
  {| status := 200;
     json_outcome := Ok (JObj [("result", JObj [("data", JList ticker_data)])]) |}.

(** Every call returns; requests are answered by [answer]. *)
Definition online (answer : list (string * json) → outcome response) : env :=
  {| utcnow := λ _, Qc_of_Z 0;
     clock := λ _, Qc_of_Z 0;
     acquire_outcome := λ _ _, None;
     get_outcome := λ _ params _, answer params;
     connect_outcome := λ _, None;
     subscribe_outcome := λ _, None;
     message_outcome := λ _, Ok None;
     disconnect_outcome := λ _, None;
     sleep_outcome := λ _, None |}.

(** The request for [ETH_USDT] fails, the others return the order book. *)
Definition eth_fails (params : list (string * json)) : outcome response :=
  match params with
  | [_; (_, JStr symbol)] =>
      if decide (symbol = "ETH_USDT") then Failed ClientError else Ok book_response
  | _ => Ok book_response
  end.

(** No network: connecting and requesting fail; the sleep at suspension
    point [failing] times out and every other sleep is cancelled. *)
Definition offline (failing : nat) : env :=
  {| utcnow := λ _, Qc_of_Z 0;
     clock := λ _, Qc_of_Z 0;
     acquire_outcome := λ _ _, None;
     get_outcome := λ _ _ _, Failed ClientError;
     connect_outcome := λ _, Some ClientError;
     subscribe_outcome := λ _, None;
     message_outcome := λ _, Ok None;
     disconnect_outcome := λ _, None;
     sleep_outcome := λ k, if decide (k = failing) then Some TimeoutError
                           else Some CancelledError |}.

(** The task is cancelled while it waits for the permit. *)
Definition cancelled_in_acquire : env :=
  {| utcnow := λ _, Qc_of_Z 0;
     clock := λ _, Qc_of_Z 0;
     acquire_outcome := λ _ _, Some CancelledError;
     get_outcome := λ _ _ _, Failed ClientError;
     connect_outcome := λ _, None;
     subscribe_outcome := λ _, None;
     message_outcome := λ _, Ok None;
     disconnect_outcome := λ _, None;
     sleep_outcome := λ _, None |}.

(** A log in which the heavy endpoint has no capacity left. *)
Definition full_log : list TaskLog :=
  [ {| timestamp := Qc_of_Z 0; task_path_url := "public/get-book"; task_weight := 2 |};
    {| timestamp := Qc_of_Z 0; task_path_url := "public/get-book"; task_weight := 2 |} ].

End Examples.
Import Examples.

(** ** Predicates used to state the properties *)

Module Predicates.

Import Throttler.

(** The table built by the constructor files every rate limit under its own
    path. *)
Definition keyed_by_path (m : gmap string RateLimit) : Prop :=
  ∀ p rate_limit, m !! p = Some rate_limit → path_url rate_limit = p.

(** What every reachable log satisfies: an entry recorded for a configured
    endpoint carries that endpoint's weight, and the entries of an endpoint
    whose weight is at least one never outnumber its limit. *)
Definition log_ok (m : gmap string RateLimit) (task_logs : list TaskLog) : Prop :=
  Forall (λ task, ∀ rate_limit, m !! task_path_url task = Some rate_limit →
                  task_weight task = weight rate_limit) task_logs
  ∧ ∀ p rate_limit, m !! p = Some rate_limit →
      1 ≤ weight rate_limit → 0 ≤ limit rate_limit →
      Z.of_nat (length (tasks_of p task_logs)) ≤ limit rate_limit.

(** [emits P m]: whatever the environment answers, [m] only appends to the
    trace, and every event it appends satisfies [P]. *)
Definition emits {A} (P : event → Prop) (m : M A) : Prop :=
  ∀ E w, ∃ evs, trace (m E w).2 = trace w ++ evs ∧ Forall P evs.

(** The events of a REST call: the permit and the request. *)
Definition rest_event (ev : event) : Prop :=
  match ev with
  | Acquire _ | Get _ _ => True
  | _ => False
  end.

(** The events of a stream session between its creation and its
    disconnection. *)
Definition stream_event (ev : event) : Prop :=
  match ev with
  | Connect _ | Subscribe _ _ | Receive _ | Publish _ => True
  | _ => False
  end.

(** The events that involve a stream session. *)
Definition session_event (ev : event) : Prop :=
  match ev with
  | Created _ | Connect _ | Subscribe _ _ | Receive _ | Disconnect _ => True
  | _ => False
  end.

(** The event of asking the throttler for a permit, the only point at which
    a task-log entry can be written. *)
Definition throttler_event (ev : event) : Prop :=
  match ev with
  | Acquire _ => True
  | _ => False
  end.

(** The exception that leaves a round whose [try] block was cancelled:
    the cancellation, unless the cleanup raised its own. *)
Definition after_cleanup (cleanup : option exn) : exn :=
  default CancelledError cleanup.


(** The ticker entries whose symbol [i] equals the exchange symbol. *)
Definition matches (symbol : string) (o : json) : bool :=
  match getitem "i" o with
  | Ret i => eq_str i symbol
  | _ => false
  end.

Definition first_match (symbol : string) (data : list json) : option json :=
  head (filter (λ o, matches symbol o = true) data).

(** A ticker entry with both fields, [{i: symbol, a: last_price}]. *)
Definition ticker_entry (o : json) : Prop :=
  ∃ i a, getitem "i" o = Ret i ∧ getitem "a" o = Ret a.

(** The price the loop records for a symbol, if any. *)
Definition price_of (symbol : string) (data : list json) : option json :=
  match first_match symbol data with
  | Some o =>
      match getitem "a" o with
      | Ret a => if is_None a then None else Some a
      | _ => None
      end
  | None => None
  end.

Section WithConstants.

Context `{Constants}.

Definition record_price (data : list json) (result : gmap string json)
    (t_pair : string) : gmap string json :=
  match price_of (convert_to_exchange_trading_pair t_pair) data with
  | Some a => <[t_pair := a]> result
  | None => result
  end.

End WithConstants.

End Predicates.
Import Predicates.

(** ** The logger of the data source, and session bookkeeping on traces *)

Module Logging.

(** [CryptoComAPIOrderBookDataSource._logger], a class attribute, and the
    number of calls made to [logging.getLogger]. A logger is identified by
    the name it is registered under. *)
Record class_state := {
  _logger : option string;
  getLogger_calls : nat
}.

(** [logging.getLogger(name)] returns the logger registered under [name]. *)
Definition getLogger (name : string) (st : class_state) : string * class_state :=
  (name, {| _logger := _logger st; getLogger_calls := S (getLogger_calls st) |}).

(** [CryptoComAPIOrderBookDataSource.logger], for the module name
    [__name__]. *)
Definition logger (__name__ : string) (st : class_state) : string * class_state :=
  match _logger st with
  | None =>
      let '(l, st') := getLogger __name__ st in
      (l, {| _logger := Some l; getLogger_calls := getLogger_calls st' |})
  | Some l => (l, st)
  end.

(** [n] calls in a row: the loggers returned, oldest first, and the final
    state. *)
Fixpoint logger_calls (n : nat) (__name__ : string) (st : class_state)
  : list string * class_state :=
  match n with
  | O => ([], st)
  | S n' =>
      let '(l, st') := logger __name__ st in
      let '(ls, st'') := logger_calls n' __name__ st' in
      (l :: ls, st'')
  end.

End Logging.

Module Sessions.

(** The creations and disconnections along a trace, in order. *)
Inductive mark :=
| Opened (ws : nat)
| Closed (ws : nat).

Definition session_mark (ev : event) : option mark :=
  match ev with
  | Created ws => Some (Opened ws)
  | Disconnect ws => Some (Closed ws)
  | _ => None
  end.

Definition session_marks (t : list event) : list mark := omap session_mark t.

(** An event that neither creates nor disconnects a session. *)
Definition inner_event (ev : event) : Prop := session_mark ev = None.

(** [n] rounds, the first one on session [ws]: each session is opened and
    closed before the next one is opened. *)
Fixpoint rounds (ws : nat) (n : nat) : list mark :=
  match n with
  | O => []
  | S n' => Opened ws :: Closed ws :: rounds (S ws) n'
  end.

(** A coroutine that creates no session. *)
Definition steady {A} (m : M A) : Prop :=
  ∀ E w, sessions (m E w).2 = sessions w.

(** The shape shared by the rounds of the trade and the diff relay. *)
Definition stream_round (session : nat → M unit) (backoff : M unit) : M unit :=
  ws ← new_session;
  try_finally (try_except (session ws) backoff) (disconnect ws).

End Sessions.
Import Sessions.

(** ** More environments *)

Module MoreExamples.

(** The exchange cannot be reached: connecting fails; sleeps elapse. *)
Definition unreachable : env :=
  {| utcnow := λ _, Qc_of_Z 0;
     clock := λ _, Qc_of_Z 0;
     acquire_outcome := λ _ _, None;
     get_outcome := λ _ _ _, Failed ClientError;
     connect_outcome := λ _, Some ClientError;
     subscribe_outcome := λ _, None;
     message_outcome := λ _, Ok None;
     disconnect_outcome := λ _, None;
     sleep_outcome := λ _, None |}.

(** The stream ends at once and closing the connection fails. *)
Definition closing_fails : env :=
  {| utcnow := λ _, Qc_of_Z 0;
     clock := λ _, Qc_of_Z 0;
     acquire_outcome := λ _ _, None;
     get_outcome := λ _ _ _, Failed ClientError;
     connect_outcome := λ _, None;
     subscribe_outcome := λ _, None;
     message_outcome := λ _, Ok None;
     disconnect_outcome := λ _, Some ClientError;
     sleep_outcome := λ _, None |}.


(** Connecting fails, the backoff sleep is cancelled, and closing the
    connection fails as well. *)
Definition cancelled_then_closing_fails : env :=
  {| utcnow := λ _, Qc_of_Z 0;
     clock := λ _, Qc_of_Z 0;
     acquire_outcome := λ _ _, None;
     get_outcome := λ _ _ _, Failed ClientError;
     connect_outcome := λ _, Some TimeoutError;
     subscribe_outcome := λ _, None;
     message_outcome := λ _, Ok None;
     disconnect_outcome := λ _, Some ClientError;
     sleep_outcome := λ _, Some CancelledError |}.

End MoreExamples.
Import MoreExamples.

(** * Properties of the throttler *)

Import Throttler.

Section ThrottlerFacts.

Implicit Types (self : VariedRateRequestContext) (thr : VariedRateThrottler).
Implicit Types (task_logs live : list TaskLog) (p : string).

Lemma tasks_of_app p l1 l2 : tasks_of p (l1 ++ l2) = tasks_of p l1 ++ tasks_of p l2.
Proof. apply filter_app. Qed.

Lemma tasks_of_sublist p l1 l2 :
  l1 `sublist_of` l2 → tasks_of p l1 `sublist_of` tasks_of p l2.
Proof.
  unfold tasks_of. induction 1 as [|x l1 l2 _ IH|x l1 l2 _ IH].
  - constructor.
  - rewrite !filter_cons. case_decide; [by constructor | exact IH].
  - rewrite filter_cons. case_decide; [by constructor | exact IH].
Qed.

Lemma tasks_of_length_sublist p l1 l2 :
  l1 `sublist_of` l2 → (length (tasks_of p l1) ≤ length (tasks_of p l2))%nat.
Proof. intros Hs. by apply sublist_length, tasks_of_sublist. Qed.

Lemma flush_sublist now self task_logs : flush now self task_logs `sublist_of` task_logs.
Proof. apply sublist_filter. Qed.

(** The decision of [within_capacity], as an inequality on the count. *)
Lemma within_capacity_count self task_logs :
  within_capacity self task_logs = true ↔
  Z.of_nat (length (tasks_of (path_url (_rate_limit self)) task_logs))
    + weight (_rate_limit self) ≤ limit (_rate_limit self).
Proof.
  unfold within_capacity. rewrite bool_decide_eq_true. lia.
Qed.

(** When every recorded entry of the endpoint weighs one unit, the sum of
    the weights is the count. *)
Lemma usage_weight_unit p task_logs :
  Forall (λ task, task_path_url task = p → task_weight task = 1) task_logs →
  usage_weight p task_logs = Z.of_nat (length (tasks_of p task_logs)).
Proof.
  unfold usage_weight, tasks_of.
  induction 1 as [|task l Hw _ IH]; [done|].
  rewrite filter_cons. case_decide as Hp; [|exact IH].
  rewrite fmap_cons. cbn [foldr length]. rewrite IH, Hw by exact Hp. lia.
Qed.

Lemma new_throttler_keyed rate_limit_list margin retry :
  keyed_by_path (_path_rate_limit_map (new_throttler rate_limit_list margin retry)).
Proof.
  unfold new_throttler; cbn [_path_rate_limit_map].
  assert (Hgen : ∀ l (m : gmap string RateLimit), keyed_by_path m →
            keyed_by_path (foldl (λ m rl, <[path_url rl := rl]> m) m l)).
  { induction l as [|rl l IH]; intros m Hm; [exact Hm|].
    cbn [foldl]. apply IH. intros p r.
    destruct (decide (path_url rl = p)) as [<-|Hne].
    - rewrite lookup_insert_eq. by intros [= <-].
    - rewrite lookup_insert_ne by exact Hne. apply Hm. }
  apply Hgen. intros p r. by rewrite lookup_empty.
Qed.

Section WithPrune.

Variable prune : Seconds → VariedRateRequestContext → list TaskLog → list TaskLog.
Hypothesis prune_sublist : ∀ now self task_logs,
  prune now self task_logs `sublist_of` task_logs.

Lemma log_ok_sublist m l1 l2 : l1 `sublist_of` l2 → log_ok m l2 → log_ok m l1.
Proof.
  intros Hs [Hw Hc]. split.
  - rewrite Forall_forall in *. intros task Hin. apply Hw.
    by apply (sublist_subseteq _ _ Hs).
  - intros p rl Hp H1 H0. specialize (Hc p rl Hp H1 H0).
    pose proof (tasks_of_length_sublist p _ _ Hs). lia.
Qed.

Lemma request_map now p thr :
  _path_rate_limit_map (request prune now p thr).2 = _path_rate_limit_map thr.
Proof.
  unfold request. destruct (execute_task thr p) as [ctx|e|]; [|done..].
  by destruct (evaluate prune now ctx (_task_logs thr)).
Qed.

Lemma request_log_ok now p thr :
  keyed_by_path (_path_rate_limit_map thr) →
  log_ok (_path_rate_limit_map thr) (_task_logs thr) →
  log_ok (_path_rate_limit_map thr) (_task_logs (request prune now p thr).2).
Proof.
  intros Hkey Hok. unfold request, execute_task.
  destruct (_path_rate_limit_map thr !! p) as [rl|] eqn:Hrl; [|exact Hok].
  set (ctx := {| _rate_limit := rl |}).
  unfold evaluate.
  pose proof (log_ok_sublist _ _ _ (prune_sublist now ctx (_task_logs thr)) Hok)
    as [Hw Hc].
  destruct (within_capacity ctx (prune now ctx (_task_logs thr))) eqn:Hcap;
    cbn [snd _task_logs set_task_logs]; [|by split].
  apply within_capacity_count in Hcap. cbn [_rate_limit ctx] in Hcap.
  pose proof (Hkey _ _ Hrl) as Hpath.
  split.
  - apply Forall_app. split; [exact Hw|]. apply Forall_singleton.
    cbn [task_path_url task_weight _rate_limit ctx]. intros rl'.
    rewrite Hpath, Hrl. by intros [= <-].
  - intros q rl' Hq H1 H0. rewrite tasks_of_app, length_app.
    unfold tasks_of at 2. rewrite filter_cons, filter_nil.
    cbn [task_path_url _rate_limit ctx].
    case_decide as Hpq; cbn [length].
    + assert (rl' = rl) as -> by (rewrite Hpath in Hpq; congruence).
      rewrite Hpath, <- Hpq in *. lia.
    + specialize (Hc q rl' Hq H1 H0). lia.
Qed.

Lemma run_snoc requests r thr :
  run prune (requests ++ [r]) thr = (request prune r.1 r.2 (run prune requests thr)).2.
Proof. unfold run. by rewrite foldl_app. Qed.

Lemma run_map requests thr :
  _path_rate_limit_map (run prune requests thr) = _path_rate_limit_map thr.
Proof.
  induction requests as [|r requests IH] using rev_ind; [done|].
  by rewrite run_snoc, request_map.
Qed.

Lemma run_log_ok requests thr :
  keyed_by_path (_path_rate_limit_map thr) →
  log_ok (_path_rate_limit_map thr) (_task_logs thr) →
  log_ok (_path_rate_limit_map thr) (_task_logs (run prune requests thr)).
Proof.
  intros Hkey Hok.
  induction requests as [|r requests IH] using rev_ind; [exact Hok|].
  rewrite run_snoc. rewrite <- (run_map requests thr) in *.
  apply request_log_ok; [exact Hkey | exact IH].
Qed.

Lemma evaluate_suspended_sublist now self task_logs task_logs' :
  evaluate prune now self task_logs = (Suspended, task_logs') →
  task_logs' = prune now self task_logs ∧ task_logs' `sublist_of` task_logs.
Proof.
  unfold evaluate. destruct (within_capacity _ _); [discriminate|].
  intros [= <-]. split; [done | apply prune_sublist].
Qed.

(** An admission loop that ends in an exception has written no entry: the
    log it leaves is a pruning of the log it found. *)
Lemma acquire_raise_no_entry fuel clock sleep_outcome self : ∀ k task_logs e task_logs',
  acquire prune fuel clock sleep_outcome k self task_logs = (Raise e, task_logs') →
  task_logs' `sublist_of` task_logs.
Proof.
  induction fuel as [|fuel IH]; intros k task_logs e task_logs'; [discriminate|].
  cbn [acquire].
  destruct (evaluate prune (clock k) self task_logs) as [[|] l1] eqn:Hev;
    [discriminate|].
  apply evaluate_suspended_sublist in Hev as [_ Hsub].
  destruct (sleep_outcome k) as [e'|].
  - intros [= <- <-]. exact Hsub.
  - intros Hrec. etrans; [eapply IH, Hrec | exact Hsub].
Qed.

(** A loop still waiting after [n] attempts goes on from attempt [k + n]. *)
Lemma acquire_pending_resume n m clock sleep_outcome self : ∀ k task_logs waiting,
  acquire prune n clock sleep_outcome k self task_logs = (Pending, waiting) →
  acquire prune (n + m) clock sleep_outcome k self task_logs
  = acquire prune m clock sleep_outcome (k + n) self waiting
  ∧ waiting `sublist_of` task_logs.
Proof.
  induction n as [|n IH]; intros k task_logs waiting.
  - cbn. intros [= <-]. by rewrite Nat.add_0_r.
  - cbn [acquire Nat.add].
    destruct (evaluate prune (clock k) self task_logs) as [[|] l1] eqn:Hev;
      [discriminate|].
    apply evaluate_suspended_sublist in Hev as [_ Hsub].
    destruct (sleep_outcome k) as [e'|]; [discriminate|].
    intros Hrec. destruct (IH _ _ _ Hrec) as [-> Hsub'].
    split; [by rewrite Nat.add_succ_r | by etrans].
Qed.

(** A cancellation delivered while the loop is suspended before attempt
    [k + n + 1] ends it with [CancelledError] and no new entry. *)
Lemma acquire_cancelled n m clock sleep_outcome self k task_logs waiting :
  acquire prune n clock sleep_outcome k self task_logs = (Pending, waiting) →
  within_capacity self (prune (clock (k + n)%nat) self waiting) = false →
  sleep_outcome (k + n)%nat = Some CancelledError →
  ∃ task_logs',
    acquire prune (n + S m) clock sleep_outcome k self task_logs
    = (Raise CancelledError, task_logs')
    ∧ task_logs' `sublist_of` task_logs.
Proof.
  intros Hwait Hfull Hcancel.
  destruct (acquire_pending_resume n (S m) _ _ _ _ _ _ Hwait) as [-> Hsub].
  cbn [acquire]. unfold evaluate. rewrite Hfull, Hcancel.
  eexists. split; [reflexivity|]. etrans; [apply prune_sublist | exact Hsub].
Qed.

End WithPrune.

End ThrottlerFacts.

(** C1, as stated, fails: with limit 3 and weight 2 two back-to-back
    requests are both admitted, and the two entries, both in the window,
    weigh 4. *)
Lemma admitted_weight_exceeds_limit :
  let after_one := run flush [(Qc_of_Z 0, "public/get-book")] heavy_throttler in
  let after_two := run flush two_requests heavy_throttler in
  (request flush (Qc_of_Z 0) "public/get-book" heavy_throttler).1 = Ret Granted
  ∧ (request flush (Qc_of_Z 0) "public/get-book" after_one).1 = Ret Granted
  ∧ flush (Qc_of_Z 0) heavy_context (_task_logs after_two) = _task_logs after_two
  ∧ ¬ (usage_weight "public/get-book" (_task_logs after_two) ≤ limit heavy_limit).
Proof.
  vm_compute. repeat split; intros Hle; apply Hle; reflexivity.
Qed.

(** C1 (amended): along every sequence of requests against a throttler
    built from a list of rate limits, at every observation point and under
    every pruning of the log, the entries recorded for a configured
    endpoint whose weight is at least one number at most its limit; when
    the weight is one, the sum of their weights is at most the limit. *)
Theorem admitted_count_within_limit
    (prune : Seconds → VariedRateRequestContext → list TaskLog → list TaskLog)
    (rate_limit_list : list RateLimit) (margin retry : Seconds)
    (requests : list (Seconds * string)) (p : string) (rate_limit : RateLimit)
    (live : list TaskLog) :
  (∀ now self task_logs, prune now self task_logs `sublist_of` task_logs) →
  let thr := run prune requests (new_throttler rate_limit_list margin retry) in
  _path_rate_limit_map thr !! p = Some rate_limit →
  1 ≤ weight rate_limit →
  0 ≤ limit rate_limit →
  live `sublist_of` _task_logs thr →
  Z.of_nat (length (tasks_of p live)) ≤ limit rate_limit
  ∧ (weight rate_limit = 1 → usage_weight p live ≤ limit rate_limit).
Proof.
  intros Hprune thr Hp H1 H0 Hlive.
  set (thr0 := new_throttler rate_limit_list margin retry) in *.
  assert (Hkey : keyed_by_path (_path_rate_limit_map thr0))
    by apply new_throttler_keyed.
  assert (Hok0 : log_ok (_path_rate_limit_map thr0) (_task_logs thr0)).
  { split; [constructor|]. intros q rl _ _ Hl. cbn. lia. }
  pose proof (run_log_ok prune Hprune requests thr0 Hkey Hok0) as Hok.
  fold thr in Hok.
  assert (Hmap : _path_rate_limit_map thr = _path_rate_limit_map thr0)
    by apply run_map.
  rewrite Hmap in Hp.
  destruct (log_ok_sublist _ _ _ Hlive Hok) as [Hw Hc].
  pose proof (Hc p rate_limit Hp H1 H0) as Hcount.
  split; [exact Hcount|].
  intros Hone. rewrite usage_weight_unit; [exact Hcount|].
  eapply Forall_impl; [exact Hw|]. cbn. intros task Htask Hpath.
  rewrite (Htask rate_limit) by (rewrite Hpath; exact Hp). exact Hone.
Qed.

Lemma admitted_count_within_limit_witness :
  let thr := run flush [(Qc_of_Z 0, "public/get-ticker");
                        (Qc_of_Z 0, "public/get-ticker");
                        (Qc_of_Z 0, "public/get-ticker")]
                 (new_throttler [light_limit] (Q2Qc (1 # 10)) (Q2Qc (1 # 10))) in
  length (_task_logs thr) = 2%nat
  ∧ Z.of_nat (length (tasks_of "public/get-ticker" (_task_logs thr))) ≤ 2
  ∧ (weight light_limit = 1 →
     usage_weight "public/get-ticker" (_task_logs thr) ≤ 2).
Proof.
  intros thr. split; [reflexivity|].
  apply (admitted_count_within_limit flush [light_limit] (Q2Qc (1 # 10))
           (Q2Qc (1 # 10))
           [(Qc_of_Z 0, "public/get-ticker"); (Qc_of_Z 0, "public/get-ticker");
            (Qc_of_Z 0, "public/get-ticker")]
           "public/get-ticker" light_limit (_task_logs thr)).
  - apply flush_sublist.
  - reflexivity.
  - vm_compute; discriminate.
  - vm_compute; discriminate.
  - reflexivity.
Defined.

(** C2, as stated, fails: the log holds one entry of weight 2 for the
    endpoint of limit 3 and weight 2; the sum of weights plus the weight
    is 4, above the limit, and the code admits. *)
Lemma within_capacity_not_weight_sum :
  let task_logs := [ {| timestamp := Qc_of_Z 0;
                        task_path_url := "public/get-book";
                        task_weight := 2 |} ] in
  usage_weight "public/get-book" task_logs = 2
  ∧ spec_within_capacity heavy_context task_logs = false
  ∧ within_capacity heavy_context task_logs = true.
Proof. vm_compute. repeat split. Qed.

(** C2 (amended): the admission check takes as current usage the number of
    entries in the task log whose recorded endpoint equals the endpoint
    being evaluated, each entry counting one whatever its weight, and
    admits exactly when that number plus the endpoint's weight is at most
    the endpoint's limit; it agrees with the test on the sum of the weights
    when every such entry weighs one. *)
Theorem within_capacity_counts_entries
    (self : VariedRateRequestContext) (task_logs : list TaskLog) :
  let current_usage :=
    Z.of_nat (length (filter (λ task, task_path_url task = path_url (_rate_limit self))
                             task_logs)) in
  (within_capacity self task_logs = true ↔
   current_usage + weight (_rate_limit self) ≤ limit (_rate_limit self))
  ∧ (Forall (λ task, task_path_url task = path_url (_rate_limit self) →
                     task_weight task = 1) task_logs →
     within_capacity self task_logs = spec_within_capacity self task_logs).
Proof.
  split; [apply within_capacity_count|].
  intros Hunit. unfold spec_within_capacity.
  rewrite (usage_weight_unit _ _ Hunit).
  apply eq_true_iff_eq. rewrite within_capacity_count, bool_decide_eq_true.
  done.
Qed.

Lemma within_capacity_counts_entries_witness :
  let self := {| _rate_limit := light_limit;
                 ctx_period_safety_margin := Q2Qc (1 # 10);
                 ctx_retry_interval := Q2Qc (1 # 10) |} in
  let task_logs := [ {| timestamp := Qc_of_Z 0;
                        task_path_url := "public/get-ticker";
                        task_weight := 1 |} ] in
  (within_capacity self task_logs = true ↔ 1 + 1 ≤ 2)
  ∧ within_capacity self task_logs = spec_within_capacity self task_logs.
Proof.
  intros self task_logs.
  destruct (within_capacity_counts_entries self task_logs) as [Hcount Hspec].
  split; [exact Hcount|]. apply Hspec.
  repeat constructor.
Defined.

(** C3: requesting admission for an endpoint without a configured rate
    limit raises the lookup error ([KeyError], the specification's
    configuration error); the request is not admitted and the throttler,
    its task log included, is unchanged. *)
Theorem unconfigured_endpoint_rejected
    (prune : Seconds → VariedRateRequestContext → list TaskLog → list TaskLog)
    (thr : VariedRateThrottler) (now : Seconds) (p : string) :
  _path_rate_limit_map thr !! p = None →
  execute_task thr p = Raise (KeyError p)
  ∧ request prune now p thr = (Raise (KeyError p), thr)
  ∧ _task_logs (request prune now p thr).2 = _task_logs thr.
Proof.
  intros Hnone. unfold request, execute_task. rewrite Hnone. done.
Qed.

Lemma unconfigured_endpoint_rejected_witness :
  execute_task heavy_throttler "public/get-ticker"
    = Raise (KeyError "public/get-ticker")
  ∧ request flush (Qc_of_Z 0) "public/get-ticker" heavy_throttler
    = (Raise (KeyError "public/get-ticker"), heavy_throttler)
  ∧ _task_logs (request flush (Qc_of_Z 0) "public/get-ticker" heavy_throttler).2
    = _task_logs heavy_throttler.
Proof.
  apply (unconfigured_endpoint_rejected flush heavy_throttler (Qc_of_Z 0)
           "public/get-ticker").
  reflexivity.
Defined.

(** * Properties of the data source *)

Section CoroutineFacts.

Lemma bind_run {A B} (m : M A) (f : A → M B) E w :
  (m ≫= f) E w =
  match m E w with
  | (Ret a, w') => f a E w'
  | (Raise e, w') => (Raise e, w')
  | (Pending, w') => (Pending, w')
  end.
Proof. reflexivity. Qed.

Lemma suspend_run {A} ev (answer : env → nat → outcome A) E w :
  suspend ev answer E w =
  (match answer E (tick w) with Ok a => Ret a | Failed e => Raise e end,
   advance (record ev w)).
Proof. unfold suspend. by destruct (answer E (tick w)). Qed.

Lemma published_app t1 t2 : published (t1 ++ t2) = published t1 ++ published t2.
Proof. apply omap_app. Qed.

Lemma logged_app level t1 t2 :
  logged level (t1 ++ t2) = logged level t1 ++ logged level t2.
Proof. apply omap_app. Qed.


(** Subscripts raise only lookup and type errors, and need no fuel. *)
Lemma getitem_raise key x e :
  getitem key x = Raise e → e = KeyError key ∨ e = TypeError.
Proof.
  destruct x as [| | | | | |items]; cbn; try (intros [= <-]; by right).
  destruct (assoc key items); [discriminate|]. intros [= <-]. by left.
Qed.

Lemma getitem_not_pending key x : getitem key x ≠ Pending.
Proof.
  destruct x as [| | | | | |items]; cbn; try discriminate.
  destruct (assoc key items); discriminate.
Qed.

Lemma getitem_0_raise x e :
  getitem_0 x = Raise e → e = IndexError ∨ e = KeyError "0" ∨ e = TypeError.
Proof.
  destruct x as [| | | |[|c s]|[|first l]|items]; cbn; try discriminate;
    intros [= <-]; auto.
Qed.

Lemma getitem_0_not_pending x : getitem_0 x ≠ Pending.
Proof. destruct x as [| | | |[|c s]|[|first l]|items]; cbn; discriminate. Qed.

Lemma emits_nothing {A} P (m : M A) :
  (∀ E w, trace (m E w).2 = trace w) → emits P m.
Proof. intros Hm E w. exists []. by rewrite app_nil_r, Hm. Qed.

Lemma emits_ret {A} P (a : A) : emits P (mret a : M A).
Proof. by apply emits_nothing. Qed.

Lemma emits_lift {A} P (r : res A) : emits P (lift r).
Proof. by apply emits_nothing. Qed.

Lemma emits_raise {A} P e : emits P (raise e : M A).
Proof. by apply emits_nothing. Qed.

Lemma emits_time P : emits P time.
Proof. by apply emits_nothing. Qed.

Lemma emits_utcnow P : emits P Timestamp_utcnow.
Proof. by apply emits_nothing. Qed.

Lemma emits_emit P ev : P ev → emits P (emit ev).
Proof. intros Hev E w. exists [ev]. split; [done|]. by constructor. Qed.

Lemma emits_suspend {A} P ev (answer : env → nat → outcome A) :
  P ev → emits P (suspend ev answer).
Proof.
  intros Hev E w. exists [ev]. rewrite suspend_run.
  split; [done|]. by constructor.
Qed.

Lemma emits_new_session P : (∀ ws, P (Created ws)) → emits P new_session.
Proof. intros Hev E w. exists [Created (sessions w)]. split; [done|]. by constructor. Qed.

Lemma emits_bind {A B} P (m : M A) (f : A → M B) :
  emits P m → (∀ a, emits P (f a)) → emits P (m ≫= f).
Proof.
  intros Hm Hf E w. rewrite bind_run.
  destruct (Hm E w) as (evs1 & Ht1 & HP1).
  destruct (m E w) as [[a|e|] w1]; cbn [snd] in *; [|by exists evs1..].
  destruct (Hf a E w1) as (evs2 & Ht2 & HP2).
  exists (evs1 ++ evs2). rewrite Ht2, Ht1, app_assoc.
  split; [done|]. by apply Forall_app.
Qed.

Lemma emits_try_except {A} P (body handler : M A) :
  emits P body → emits P handler → emits P (try_except body handler).
Proof.
  intros Hb Hh E w. unfold try_except.
  destruct (Hb E w) as (evs1 & Ht1 & HP1).
  destruct (body E w) as [[a|e|] w1]; cbn [snd] in *; [by exists evs1| |by exists evs1].
  destruct (is_Exception e); [|by exists evs1].
  destruct (Hh E w1) as (evs2 & Ht2 & HP2).
  exists (evs1 ++ evs2). rewrite Ht2, Ht1, app_assoc.
  split; [done|]. by apply Forall_app.
Qed.

Lemma emits_try_finally {A} P (body : M A) (final : M unit) :
  emits P body → emits P final → emits P (try_finally body final).
Proof.
  intros Hb Hf E w. unfold try_finally.
  destruct (Hb E w) as (evs1 & Ht1 & HP1).
  destruct (Hf E (body E w).2) as (evs2 & Ht2 & HP2).
  assert (Hboth : trace (final E (body E w).2).2 = trace w ++ (evs1 ++ evs2))
    by (by rewrite Ht2, Ht1, app_assoc).
  destruct (body E w) as [[a|e|] w1]; cbn [snd] in *; [| |by exists evs1].
  - exists (evs1 ++ evs2).
    split; [|by apply Forall_app].
    by destruct (final E w1) as [[[]|e|] w2].
  - exists (evs1 ++ evs2).
    split; [|by apply Forall_app].
    by destruct (final E w1) as [[[]|e'|] w2].
Qed.

Lemma emits_for_each {A} P (xs : list A) (body : A → M unit) :
  (∀ x, emits P (body x)) → emits P (for_each xs body).
Proof.
  intros Hb. induction xs as [|x xs IH]; cbn [for_each].
  - apply emits_ret.
  - apply emits_bind; [apply Hb | intros _; exact IH].
Qed.

Lemma emits_async_for {A} P fuel (next : M (option A)) (body : A → M unit) :
  emits P next → (∀ x, emits P (body x)) → emits P (async_for fuel next body).
Proof.
  intros Hn Hb. induction fuel as [|fuel IH]; cbn [async_for].
  - apply emits_lift.
  - apply emits_bind; [exact Hn|]. intros [a|]; [|apply emits_ret].
    apply emits_bind; [apply Hb | intros _; exact IH].
Qed.

Lemma emits_forever P fuel (body : M unit) :
  emits P body → emits P (forever fuel body).
Proof.
  intros Hb. induction fuel as [|fuel IH]; cbn [forever].
  - apply emits_lift.
  - apply emits_bind; [exact Hb | intros _; exact IH].
Qed.

Lemma emits_weaken {A} (P Q : event → Prop) (m : M A) :
  (∀ ev, P ev → Q ev) → emits P m → emits Q m.
Proof.
  intros HPQ Hm E w. destruct (Hm E w) as (evs & Ht & HP).
  exists evs. split; [done|]. by eapply Forall_impl.
Qed.

End CoroutineFacts.

Create HintDb emits discriminated.
#[local] Hint Resolve emits_ret emits_lift emits_raise emits_time emits_emit
  emits_suspend emits_new_session emits_bind emits_try_except emits_try_finally
  emits_for_each emits_async_for emits_forever : emits.

Section DataSourceFacts.

Context `{Constants}.

(** C8: the order-book fetch first acquires a permit for the order-book
    endpoint and then issues the request; when both return, it raises the
    error carrying the HTTP status if the status is not 200 and otherwise
    returns the first element of [result.data] of the decoded body, so that
    (the decoding not failing with such an error itself) the status error
    is raised exactly when the status is not 200. *)
Theorem get_order_book_data_status (E : env) (w : world) (trading_pair : string)
    (resp : response) :
  acquire_outcome E GET_ORDER_BOOK_PATH_URL (tick w) = None →
  get_outcome E (get_rest_url GET_ORDER_BOOK_PATH_URL)
              (order_book_params trading_pair) (S (tick w)) = Ok resp →
  let r := (get_order_book_data trading_pair E w).1 in
  let w' := (get_order_book_data trading_pair E w).2 in
  trace w' = trace w ++ [Acquire GET_ORDER_BOOK_PATH_URL;
                         Get (get_rest_url GET_ORDER_BOOK_PATH_URL)
                             [("depth", JInt 150);
                              ("instrument_name",
                               JStr (convert_to_exchange_trading_pair trading_pair))]]
  ∧ (status resp ≠ 200 → r = Raise (IOError (status resp)))
  ∧ (status resp = 200 →
     ∀ body result data first,
       json_outcome resp = Ok body →
       getitem "result" body = Ret result →
       getitem "data" result = Ret data →
       getitem_0 data = Ret first →
       r = Ret first)
  ∧ ((∀ s, json_outcome resp ≠ Failed (IOError s)) →
     (r = Raise (IOError (status resp)) ↔ status resp ≠ 200)).
Proof.
  intros Hacq Hget r w'. subst r w'.
  unfold get_order_book_data, with_execute_task, client_get.
  rewrite bind_run, suspend_run, Hacq. cbn [of_option].
  rewrite bind_run, suspend_run. cbn [tick advance record]. rewrite Hget.
  case_decide as Hst.
  - cbn. split; [by rewrite <- app_assoc|]. repeat split; try done.
  - unfold response_json, lift. rewrite bind_run.
    split.
    { destruct (json_outcome resp) as [body|e]; cbn;
        [|by rewrite <- app_assoc].
      destruct (getitem "result" body) as [result|e|]; cbn;
        [|by rewrite <- app_assoc..].
      destruct (getitem "data" result) as [data|e|]; cbn;
        [|by rewrite <- app_assoc..].
      by rewrite <- app_assoc. }
    split; [done|]. split.
    { intros _ body result data first Hb Hr Hd Hf. rewrite Hb. cbn.
      rewrite Hr. cbn. rewrite Hd. cbn. by rewrite Hf. }
    intros Hjson. split; [|done]. intros Hr. exfalso.
    destruct (json_outcome resp) as [body|e] eqn:Hb; cbn in Hr;
      [|simplify_eq; by eapply Hjson].
    destruct (getitem "result" body) as [result|e|] eqn:Hres; cbn in Hr;
      [|apply getitem_raise in Hres as [-> | ->]; discriminate|discriminate].
    destruct (getitem "data" result) as [data|e|] eqn:Hd; cbn in Hr;
      [|apply getitem_raise in Hd as [-> | ->]; discriminate|discriminate].
    apply getitem_0_raise in Hr as [? | [? | ?]]; discriminate.
Qed.



Lemma lift_bind_run {A B} (r : res A) (f : A → M B) E w :
  (lift r ≫= f) E w =
  match r with
  | Ret a => f a E w
  | Raise e => (Raise e, w)
  | Pending => (Pending, w)
  end.
Proof. rewrite bind_run. unfold lift. by destruct r. Qed.





Lemma last_trade_of_head (symbol : string) (data : list json) :
  Forall ticker_entry data →
  ∃ last_trade,
    last_trade_of symbol data = Ret last_trade
    ∧ head last_trade
      = match first_match symbol data with
        | Some o => match getitem "a" o with Ret a => Some a | _ => None end
        | None => None
        end.
Proof.
  unfold first_match.
  induction 1 as [|o data (i & a & Hi & Ha) _ (tail & Htail & Hhead)].
  - by exists [].
  - assert (Hm : matches symbol o = eq_str i symbol)
      by (unfold matches; by rewrite Hi).
    cbn [last_trade_of]. rewrite filter_cons, Hi. cbn [mbind res_bind].
    case_decide as Hdec; rewrite Hm in Hdec.
    + rewrite Hdec, Ha. cbn [mbind res_bind]. rewrite Htail. cbn [mbind res_bind].
      exists (a :: tail). split; [done|]. cbn [head]. by rewrite Ha.
    + apply not_true_is_false in Hdec. rewrite Hdec. by exists tail.
Qed.

Lemma last_traded_prices_loop_fold (resp_json r : json) (data : list json)
    (trading_pairs : list string) : ∀ result,
  getitem "result" resp_json = Ret r →
  getitem "data" r = Ret (JList data) →
  Forall ticker_entry data →
  last_traded_prices_loop resp_json trading_pairs result
  = Ret (foldl (record_price data) result trading_pairs).
Proof.
  intros result Hr Hd Hdata. revert result.
  induction trading_pairs as [|t_pair rest IH]; intros result; [done|].
  cbn [last_traded_prices_loop foldl]. rewrite Hr. cbn [mbind res_bind].
  rewrite Hd. cbn [mbind res_bind iterate].
  destruct (last_trade_of_head (convert_to_exchange_trading_pair t_pair) data Hdata)
    as (last_trade & -> & Hhead).
  cbn [mbind res_bind].
  assert (Hstep : record_price data result t_pair
            = match last_trade with
              | first :: _ => if is_None first then result
                              else <[t_pair := first]> result
              | [] => result
              end).
  { unfold record_price, price_of.
    destruct last_trade as [|first tail]; cbn [head] in Hhead.
    - destruct (first_match _ data) as [o|]; [|done].
      by destruct (getitem "a" o).
    - destruct (first_match _ data) as [o|]; [|done].
      destruct (getitem "a" o) as [a| |]; [|done..].
      injection Hhead as <-. by destruct (is_None first). }
  rewrite Hstep.
  destruct last_trade as [|first tail]; [apply IH|].
  destruct (is_None first); apply IH.
Qed.

Lemma record_price_fold_lookup (data : list json) (trading_pairs : list string)
    (t_pair : string) : ∀ result,
  foldl (record_price data) result trading_pairs !! t_pair
  = if decide (t_pair ∈ trading_pairs)
    then match price_of (convert_to_exchange_trading_pair t_pair) data with
         | Some a => Some a
         | None => result !! t_pair
         end
    else result !! t_pair.
Proof.
  induction trading_pairs as [|q rest IH]; intros result.
  - cbn. case_decide as Hin; [by apply elem_of_nil in Hin | done].
  - cbn [foldl]. rewrite IH.
    assert (Hstep : record_price data result q !! t_pair
              = if decide (q = t_pair)
                then match price_of (convert_to_exchange_trading_pair t_pair) data with
                     | Some a => Some a
                     | None => result !! t_pair
                     end
                else result !! t_pair).
    { unfold record_price. destruct (decide (q = t_pair)) as [->|Hq].
      - destruct (price_of _ data); [by rewrite lookup_insert_eq | done].
      - destruct (price_of (convert_to_exchange_trading_pair q) data);
          [by rewrite lookup_insert_ne | done]. }
    rewrite Hstep. clear Hstep IH.
    destruct (decide (q = t_pair)) as [->|Hne].
    + rewrite (decide_True (P := t_pair ∈ t_pair :: rest)) by apply list_elem_of_here.
      destruct (decide (t_pair ∈ rest)); by destruct (price_of _ data).
    + destruct (decide (t_pair ∈ rest)) as [Hin|Hnin].
      * by rewrite (decide_True (P := t_pair ∈ q :: rest))
          by (by apply list_elem_of_further).
      * rewrite (decide_False (P := t_pair ∈ q :: rest)); [done|].
        intros [Heq|Hin]%elem_of_cons; [by apply Hne | by apply Hnin].
Qed.

(** C10: once the ticker request has returned a body whose [result.data]
    is a list of ticker entries, [get_last_traded_prices] returns a mapping
    that omits a requested pair when no entry matches its exchange symbol,
    omits it as well when the first matching entry's price is null, and
    otherwise maps it to the first matching entry's price; pairs that were
    not requested are absent. *)
Theorem get_last_traded_prices_first_match (E : env) (w : world)
    (trading_pairs : list string) (resp : response) (resp_json r : json)
    (data : list json) :
  acquire_outcome E GET_TICKER_PATH_URL (tick w) = None →
  get_outcome E (get_rest_url GET_TICKER_PATH_URL) [] (S (tick w)) = Ok resp →
  json_outcome resp = Ok resp_json →
  getitem "result" resp_json = Ret r →
  getitem "data" r = Ret (JList data) →
  Forall ticker_entry data →
  ∃ result,
    (get_last_traded_prices trading_pairs E w).1 = Ret result
    ∧ ∀ t_pair,
        let symbol := convert_to_exchange_trading_pair t_pair in
        (t_pair ∉ trading_pairs → result !! t_pair = None)
        ∧ (first_match symbol data = None → result !! t_pair = None)
        ∧ (∀ o, first_match symbol data = Some o →
                getitem "a" o = Ret JNull → result !! t_pair = None)
        ∧ (∀ o a, t_pair ∈ trading_pairs →
                  first_match symbol data = Some o →
                  getitem "a" o = Ret a → is_None a = false →
                  result !! t_pair = Some a).
Proof.
  intros Hacq Hget Hjson Hr Hd Hdata.
  exists (foldl (record_price data) ∅ trading_pairs). split.
  - unfold get_last_traded_prices, with_execute_task, client_get, response_json.
    rewrite bind_run, suspend_run, Hacq. cbn [of_option].
    rewrite bind_run, suspend_run. cbn [tick advance record]. rewrite Hget.
    rewrite lift_bind_run, Hjson. unfold lift.
    by rewrite (last_traded_prices_loop_fold _ _ _ _ _ Hr Hd Hdata).
  - intros t_pair symbol. rewrite record_price_fold_lookup, lookup_empty.
    subst symbol. unfold price_of.
    repeat split.
    + intros Hnin. by rewrite decide_False.
    + intros ->. by case_decide.
    + intros o -> ->. by case_decide.
    + intros o a Hin -> -> ->. by rewrite decide_True.
Qed.

Lemma rest_events_silent (evs : list event) :
  Forall rest_event evs →
  published evs = [] ∧ ∀ level, logged level evs = [].
Proof.
  induction 1 as [|ev evs Hev _ [IHp IHl]]; [done|].
  destruct ev; try done; cbn; split; try done; intros level; apply IHl.
Qed.

Lemma get_order_book_data_emits (trading_pair : string) :
  emits rest_event (get_order_book_data trading_pair).
Proof.
  unfold get_order_book_data, with_execute_task, client_get, response_json.
  apply emits_bind; [by apply emits_suspend | intros _].
  apply emits_bind; [by apply emits_suspend | intros resp].
  case_decide; [apply emits_raise|].
  apply emits_bind; [apply emits_lift | intros j; apply emits_lift].
Qed.

(** What [fetch_trading_pairs] does swallow: a status other than 200, and
    any exception, other than a cancellation, raised while the body is
    decoded and read. *)
Lemma fetch_trading_pairs_swallows (E : env) (w : world) (resp : response) :
  acquire_outcome E GET_TICKER_PATH_URL (tick w) = None →
  get_outcome E (get_rest_url GET_TICKER_PATH_URL) [] (S (tick w)) = Ok resp →
  (status resp ≠ 200 → (fetch_trading_pairs E w).1 = Ret [])
  ∧ (∀ e, json_outcome resp = Failed e → is_Exception e = true →
          (fetch_trading_pairs E w).1 = Ret [])
  ∧ (∀ data e, json_outcome resp = Ok data → trading_pairs_of data = Raise e →
               (fetch_trading_pairs E w).1 = Ret []).
Proof.
  intros Hacq Hget.
  unfold fetch_trading_pairs, with_execute_task, client_get.
  rewrite bind_run, suspend_run, Hacq. cbn [of_option].
  rewrite bind_run, suspend_run. cbn [tick advance record]. rewrite Hget.
  split; [|split].
  - intros Hst. by rewrite decide_False.
  - intros e Hjson Hexc. case_decide; [|done].
    unfold try_except, response_json. rewrite lift_bind_run, Hjson.
    by rewrite Hexc.
  - intros data e Hjson Hread. case_decide; [|done].
    unfold try_except, response_json. rewrite lift_bind_run, Hjson.
    unfold lift. rewrite Hread.
    assert (Hexc : is_Exception e = true); [|by rewrite Hexc].
    unfold trading_pairs_of in Hread.
    destruct (getitem "result" data) as [r|e'|] eqn:Hr; cbn in Hread;
      [|injection Hread as <-;
        by apply getitem_raise in Hr as [-> | ->]|discriminate].
    destruct (getitem "data" r) as [d|e'|] eqn:Hd; cbn in Hread;
      [|injection Hread as <-;
        by apply getitem_raise in Hd as [-> | ->]|discriminate].
    destruct (iterate d) as [items|e'|] eqn:Hit; cbn in Hread;
      [|injection Hread as <-; by destruct d; simplify_eq/=|discriminate].
    clear Hit Hd Hr. revert e Hread.
    induction items as [|item items IH]; intros e Hread; [discriminate|].
    cbn in Hread.
    destruct (getitem "i" item) as [i|e'|] eqn:Hi; cbn in Hread;
      [|injection Hread as <-;
        by apply getitem_raise in Hi as [-> | ->]|discriminate].
    destruct (convert_from_exchange i) as [pair|e'|] eqn:Hc; cbn in Hread;
      [|injection Hread as <-; by destruct i; simplify_eq/=
       |by destruct i].
    destruct (collect _ items) as [pairs|e'|] eqn:Hrest; cbn in Hread;
      [discriminate| |discriminate].
    injection Hread as <-. by eapply IH.
Qed.

(** C5 on the code: when the request itself fails (a network error or the
    ten-second timeout raised by [client.get]), the exception leaves
    [fetch_trading_pairs]; the [try] block only covers the decoding. *)
Theorem fetch_trading_pairs_request_failure (E : env) (w : world) (e : exn) :
  acquire_outcome E GET_TICKER_PATH_URL (tick w) = None →
  get_outcome E (get_rest_url GET_TICKER_PATH_URL) [] (S (tick w)) = Failed e →
  (fetch_trading_pairs E w).1 = Raise e.
Proof.
  intros Hacq Hget.
  unfold fetch_trading_pairs, with_execute_task, client_get.
  rewrite bind_run, suspend_run, Hacq. cbn [of_option].
  rewrite bind_run, suspend_run. cbn [tick advance record]. by rewrite Hget.
Qed.

(** The start of the next hour lies after [now], at most an hour away. *)
Lemma next_hour_boundary (now : Throttler.Seconds) :
  (now < next_hour now)%Qc ∧ (next_hour now <= now + Qc_of_Z 3600)%Qc.
Proof.
  unfold next_hour.
  set (x := (now / Qc_of_Z 3600)%Qc).
  pose proof (Qfloor_le x) as Hle.
  pose proof (Qlt_floor x) as Hlt.
  assert (Hnow : (this now == this x * inject_Z 3600)%Q).
  { subst x. unfold Qcdiv, Qcmult, Qcinv, Qc_of_Z. cbn [this].
    repeat setoid_rewrite Qred_correct. field. }
  unfold Qclt, Qcle, Qcplus, Qc_of_Z. cbn [this].
  repeat setoid_rewrite Qred_correct. rewrite Hnow.
  rewrite inject_Z_plus, inject_Z_mult in *.
  change (inject_Z 1) with 1%Q in Hlt.
  change (inject_Z 3600) with (3600 # 1)%Q.
  generalize dependent (inject_Z (Qfloor x)). generalize (this x).
  intros y f Hle Hlt. split; lra.
Qed.

(** The hour boundary the cycle aims at: the first whole hour after the
    reading. *)
Lemma next_hour_first_boundary (utc : Qc) :
  ∃ n : Z,
    (Qc_of_Z (3600 * (n - 1)) <= utc)%Qc
    ∧ (utc < Qc_of_Z (3600 * n))%Qc
    ∧ next_hour utc = Qc_of_Z (3600 * n).
Proof.
  destruct (next_hour_boundary utc) as [Hlt Hle].
  exists (Qfloor (utc / Qc_of_Z 3600)%Qc + 1).
  assert (Hn : next_hour utc
               = Qc_of_Z (3600 * (Qfloor (utc / Qc_of_Z 3600)%Qc + 1)))
    by (unfold next_hour; f_equal; lia).
  rewrite Hn in Hlt, Hle. split_and!; [|exact Hlt|exact Hn].
  replace (3600 * (Qfloor (utc / Qc_of_Z 3600)%Qc + 1 - 1))
    with (3600 * (Qfloor (utc / Qc_of_Z 3600)%Qc + 1) - 3600) by lia.
  rewrite Z2Qc_inj_sub.
  apply (Qcplus_le_mono_r _ _ (Qc_of_Z 3600)).
  replace (Qc_of_Z (3600 * (Qfloor (utc / Qc_of_Z 3600)%Qc + 1)) - Qc_of_Z 3600
           + Qc_of_Z 3600)%Qc
    with (Qc_of_Z (3600 * (Qfloor (utc / Qc_of_Z 3600)%Qc + 1))) by ring.
  exact Hle.
Qed.

(** One pair of the refresh cycle whose fetch succeeds: the snapshot is
    published, the debug line written, and the relay sleeps. *)
Lemma snapshot_of_pair_success (E : env) (w w1 : world) (trading_pair : string)
    (snapshot t : json) (snapshot_timestamp : Z) :
  get_order_book_data trading_pair E w = (Ret snapshot, w1) →
  getitem "t" snapshot = Ret t →
  ms_timestamp_to_s t = Ret snapshot_timestamp →
  sleep_outcome E (tick w1) = None →
  snapshot_of_pair trading_pair E w
  = (Ret tt,
     advance
       (record (Sleep (Qc_of_Z 5))
          (record (Log DEBUG ("Saved order book snapshot for " +:+ trading_pair))
             (record (Publish (snapshot_message_from_exchange
                                 snapshot snapshot_timestamp trading_pair))
                     w1)))).
Proof.
  intros Hfetch Ht Hts Hsleep.
  unfold snapshot_of_pair, try_except.
  rewrite bind_run, Hfetch, lift_bind_run, Ht, lift_bind_run, Hts.
  unfold put_nowait, logger, emit, sleep.
  rewrite !bind_run, (suspend_run (A:=unit)). cbn [tick record]. by rewrite Hsleep.
Qed.

(** One pair whose fetch fails: the failure is logged and the relay sleeps;
    the loop over the pairs goes on. *)
Lemma snapshot_of_pair_failure (E : env) (w w1 : world) (trading_pair : string)
    (e : exn) :
  get_order_book_data trading_pair E w = (Raise e, w1) →
  is_Exception e = true →
  sleep_outcome E (tick w1) = None →
  snapshot_of_pair trading_pair E w
  = (Ret tt,
     advance
       (record (Sleep (Qc_of_Z 5))
          (record (Log NETWORK "Unexpected error with WebSocket connection.")
                  w1))).
Proof.
  intros Hfetch Hexc Hsleep.
  unfold snapshot_of_pair, try_except.
  rewrite bind_run, Hfetch, Hexc.
  unfold snapshot_backoff, logger, emit, sleep.
  rewrite bind_run, (suspend_run (A:=unit)). cbn [tick record]. by rewrite Hsleep.
Qed.

Lemma get_order_book_data_silent (E : env) (w : world) (trading_pair : string) :
  published (trace (get_order_book_data trading_pair E w).2) = published (trace w)
  ∧ ∀ level, logged level (trace (get_order_book_data trading_pair E w).2)
             = logged level (trace w).
Proof.
  destruct (get_order_book_data_emits trading_pair E w) as (evs & -> & Hevs).
  destruct (rest_events_silent evs Hevs) as [Hp Hl].
  split; [|intros level]; by rewrite ?published_app, ?logged_app, ?Hp, ?Hl, app_nil_r.
Qed.

(** C6: in a refresh cycle over three pairs in which the fetch for the
    second pair always fails and the fetches for the first and third
    succeed (sleeps elapsing), exactly the snapshots of the first and third
    pair are published, one failure is logged, and the cycle ends normally
    in a sleep whose delay, added to the reading of [time.time()], gives the
    first whole hour after the reading of [utcnow()]: the relay sleeps until
    the next hour boundary, and the round of the loop is not aborted. *)
Theorem refresh_cycle_skips_failing_pair (E : env) (w : world)
    (p1 p2 p3 : string) (snapshot1 snapshot3 t1 t3 : json) (ts1 ts3 : Z) :
  (∀ k, sleep_outcome E k = None) →
  (∀ w0, (get_order_book_data p1 E w0).1 = Ret snapshot1) →
  getitem "t" snapshot1 = Ret t1 →
  ms_timestamp_to_s t1 = Ret ts1 →
  (∀ w0, ∃ e, (get_order_book_data p2 E w0).1 = Raise e ∧ is_Exception e = true) →
  (∀ w0, (get_order_book_data p3 E w0).1 = Ret snapshot3) →
  getitem "t" snapshot3 = Ret t3 →
  ms_timestamp_to_s t3 = Ret ts3 →
  ∃ w' k delay n,
    snapshot_cycle [p1; p2; p3] E w = (Ret tt, w')
    ∧ snapshots_round [p1; p2; p3] E w = (Ret tt, w')
    ∧ published (trace w')
      = published (trace w)
        ++ [snapshot_message_from_exchange snapshot1 ts1 p1;
            snapshot_message_from_exchange snapshot3 ts3 p3]
    ∧ logged NETWORK (trace w')
      = logged NETWORK (trace w) ++ ["Unexpected error with WebSocket connection."]
    ∧ logged ERROR (trace w') = logged ERROR (trace w)
    ∧ last (trace w') = Some (Sleep delay)
    ∧ tick w' = S k
    ∧ (Qc_of_Z (3600 * (n - 1)) <= utcnow E k)%Qc
    ∧ (utcnow E k < Qc_of_Z (3600 * n))%Qc
    ∧ (clock E k + delay)%Qc = Qc_of_Z (3600 * n).
Proof.
  intros Hsleep H1 Ht1 Hts1 H2 H3 Ht3 Hts3.
  destruct (get_order_book_data p1 E w) as [r1 w1] eqn:Hf1.
  pose proof (H1 w) as Hr1. rewrite Hf1 in Hr1. cbn in Hr1. subst r1.
  pose proof (get_order_book_data_silent E w p1) as [Hp1 Hl1].
  rewrite Hf1 in Hp1, Hl1. cbn [snd] in Hp1, Hl1.
  pose proof (snapshot_of_pair_success E w w1 p1 _ _ _ Hf1 Ht1 Hts1 (Hsleep _))
    as Hs1.
  set (wa := advance _) in Hs1.
  destruct (get_order_book_data p2 E wa) as [r2 w2] eqn:Hf2.
  destruct (H2 wa) as (e & Hr2 & Hexc). rewrite Hf2 in Hr2. cbn in Hr2. subst r2.
  pose proof (get_order_book_data_silent E wa p2) as [Hp2 Hl2].
  rewrite Hf2 in Hp2, Hl2. cbn [snd] in Hp2, Hl2.
  pose proof (snapshot_of_pair_failure E wa w2 p2 e Hf2 Hexc (Hsleep _)) as Hs2.
  set (wb := advance _) in Hs2.
  destruct (get_order_book_data p3 E wb) as [r3 w3] eqn:Hf3.
  pose proof (H3 wb) as Hr3. rewrite Hf3 in Hr3. cbn in Hr3. subst r3.
  pose proof (get_order_book_data_silent E wb p3) as [Hp3 Hl3].
  rewrite Hf3 in Hp3, Hl3. cbn [snd] in Hp3, Hl3.
  pose proof (snapshot_of_pair_success E wb w3 p3 _ _ _ Hf3 Ht3 Hts3 (Hsleep _))
    as Hs3.
  set (wc := advance _) in Hs3.
  set (delay := (next_hour (utcnow E (tick wc)) - clock E (tick wc))%Qc).
  assert (Hcycle : snapshot_cycle [p1; p2; p3] E w
            = (Ret tt, advance (record (Sleep delay) wc))).
  { unfold snapshot_cycle. cbn [for_each].
    rewrite !bind_run, Hs1, bind_run, Hs2, bind_run, Hs3.
    unfold Timestamp_utcnow, time, sleep, mret, M_ret. cbv beta iota.
    rewrite bind_run. cbv beta iota. rewrite bind_run. cbv beta iota.
    by rewrite (suspend_run (A:=unit)), Hsleep. }
  destruct (next_hour_first_boundary (utcnow E (tick wc))) as (n & Hfrom & Hto & Hn).
  exists (advance (record (Sleep delay) wc)), (tick wc), delay, n.
  split; [exact Hcycle|].
  split; [by unfold snapshots_round, try_except; rewrite Hcycle|].
  assert (Hlast : last (trace (advance (record (Sleep delay) wc)))
                  = Some (Sleep delay)) by apply last_snoc.
  assert (Hwake : (clock E (tick wc) + delay)%Qc = Qc_of_Z (3600 * n)).
  { rewrite <- Hn. subst delay. generalize (next_hour (utcnow E (tick wc))).
    generalize (clock E (tick wc)). unfold Throttler.Seconds. intros a b. ring. }
  split_and!; [| | |exact Hlast|reflexivity|exact Hfrom|exact Hto|exact Hwake];
    clear Hlast Hcycle Hwake Hfrom Hto Hn.
  all: subst delay.
  all: subst wa wb wc; cbn [trace advance record].
  all: rewrite ?published_app, ?logged_app, ?Hp3, ?Hl3; cbn [trace advance record].
  all: rewrite ?published_app, ?logged_app, ?Hp2, ?Hl2; cbn [trace advance record].
  all: rewrite ?published_app, ?logged_app, ?Hp1, ?Hl1.
  all: cbn; by rewrite ?app_nil_r, <- ?app_assoc.
Qed.

(** ** Cancellation *)

Lemma relay_trade_emits P (trade : json) :
  (∀ msg, P (Publish msg)) → emits P (relay_trade trade).
Proof. intros HP. unfold relay_trade, put_nowait. eauto 10 with emits. Qed.

Lemma trades_on_response_emits P (response : json) :
  (∀ msg, P (Publish msg)) → emits P (trades_on_response response).
Proof.
  intros HP. unfold trades_on_response.
  apply emits_bind; [apply emits_lift | intros r].
  destruct (is_None r); [apply emits_ret|].
  apply emits_bind; [apply emits_lift | intros trades].
  apply emits_for_each. intros trade. by apply relay_trade_emits.
Qed.

Lemma diffs_on_response_emits P (response : json) :
  (∀ msg, P (Publish msg)) → emits P (diffs_on_response response).
Proof.
  intros HP. unfold diffs_on_response, put_nowait.
  apply emits_bind; [apply emits_lift | intros r].
  destruct (is_None r); [apply emits_ret|].
  eauto 10 with emits.
Qed.

Lemma trades_session_emits fuel trading_pairs ws :
  emits stream_event (trades_session fuel trading_pairs ws).
Proof.
  unfold trades_session, connect, subscribe, on_message.
  apply emits_bind; [by apply emits_suspend | intros _].
  apply emits_bind; [by apply emits_suspend | intros _].
  apply emits_async_for; [by apply emits_suspend|].
  intros response. by apply trades_on_response_emits.
Qed.

Lemma diffs_session_emits fuel trading_pairs ws :
  emits stream_event (diffs_session fuel trading_pairs ws).
Proof.
  unfold diffs_session, connect, subscribe, on_message.
  apply emits_bind; [by apply emits_suspend | intros _].
  apply emits_bind; [by apply emits_suspend | intros _].
  apply emits_async_for; [by apply emits_suspend|].
  intros response. by apply diffs_on_response_emits.
Qed.

(** Side conditions on single events. *)
Ltac event_side := intros; cbn; tauto.

(** The stream relays never ask the throttler for a permit. *)
Lemma listen_for_trades_no_throttler fuel trading_pairs :
  emits (λ ev, ¬ throttler_event ev) (listen_for_trades fuel trading_pairs).
Proof.
  unfold listen_for_trades, trades_round, trades_backoff, logger, sleep, disconnect.
  apply emits_forever, emits_bind; [apply emits_new_session; event_side | intros ws].
  apply emits_try_finally; [|apply emits_suspend; event_side].
  apply emits_try_except.
  - eapply emits_weaken; [|apply trades_session_emits]. intros []; cbn; tauto.
  - apply emits_bind; [apply emits_emit; event_side | intros _].
    apply emits_suspend; event_side.
Qed.

Lemma listen_for_order_book_diffs_no_throttler fuel trading_pairs :
  emits (λ ev, ¬ throttler_event ev) (listen_for_order_book_diffs fuel trading_pairs).
Proof.
  unfold listen_for_order_book_diffs, diffs_round, diffs_backoff, logger, sleep,
    disconnect.
  apply emits_forever, emits_bind; [apply emits_new_session; event_side | intros ws].
  apply emits_try_finally; [|apply emits_suspend; event_side].
  apply emits_try_except.
  - eapply emits_weaken; [|apply diffs_session_emits]. intros []; cbn; tauto.
  - apply emits_bind; [apply emits_emit; event_side | intros _].
    apply emits_suspend; event_side.
Qed.

(** The snapshot relay has no stream session: it never creates one and
    never disconnects one. *)
Lemma listen_for_order_book_snapshots_no_session fuel trading_pairs :
  emits (λ ev, ¬ session_event ev)
        (listen_for_order_book_snapshots fuel trading_pairs).
Proof.
  unfold listen_for_order_book_snapshots, snapshots_round, snapshot_cycle.
  assert (Hsleep : ∀ d, emits (λ ev, ¬ session_event ev) (sleep d))
    by (intros d; apply emits_suspend; event_side).
  assert (Hlog : ∀ l s, emits (λ ev, ¬ session_event ev) (logger l s))
    by (intros l s; apply emits_emit; event_side).
  apply emits_forever, emits_try_except.
  - apply emits_bind; [|intros _; apply emits_bind; [apply emits_utcnow|intros utc];
      apply emits_bind; [apply emits_time|auto]].
    apply emits_for_each. intros trading_pair. unfold snapshot_of_pair.
    apply emits_try_except.
    + apply emits_bind.
      { eapply emits_weaken; [|apply get_order_book_data_emits]. intros []; cbn; tauto. }
      intros snapshot. unfold put_nowait.
      apply emits_bind; [apply emits_lift | intros t].
      apply emits_bind; [apply emits_lift | intros ts].
      apply emits_bind; [apply emits_emit; event_side | intros _].
      apply emits_bind; [apply Hlog | intros _; apply Hsleep].
    + unfold snapshot_backoff.
      apply emits_bind; [apply Hlog | intros _; apply Hsleep].
  - apply emits_bind; [apply Hlog | intros _; apply Hsleep].
Qed.

(** A cancellation delivered in the sleep of a backoff handler: the
    handler has logged, the sleep raises [CancelledError], and nothing
    catches it. *)
Lemma backoff_cancelled (body : M unit) (level : log_level) (message : string)
    (delay : Throttler.Seconds) (E : env) (w w1 : world) (e : exn) :
  body E w = (Raise e, w1) →
  is_Exception e = true →
  sleep_outcome E (tick w1) = Some CancelledError →
  try_except body (logger level message ;; sleep delay) E w
  = (Raise CancelledError,
     advance (record (Sleep delay) (record (Log level message) w1))).
Proof.
  intros Hbody Hexc Hcancel. unfold try_except. rewrite Hbody, Hexc.
  unfold logger, emit, sleep. rewrite bind_run. cbv beta iota.
  rewrite (suspend_run (A:=unit)). cbn [tick record]. by rewrite Hcancel.
Qed.

Lemma forever_raise (body : M unit) (m : nat) (E : env) (w w' : world) (e : exn) :
  body E w = (Raise e, w') → forever (S m) body E w = (Raise e, w').
Proof. intros Hbody. cbn [forever]. by rewrite bind_run, Hbody. Qed.

Lemma for_each_app {A} (xs ys : list A) (body : A → M unit) (E : env) :
  ∀ w w1, for_each xs body E w = (Ret tt, w1) →
          for_each (xs ++ ys) body E w = for_each ys body E w1.
Proof.
  induction xs as [|x xs IH]; intros w w1.
  - cbn. by intros [= <-].
  - cbn [for_each app]. rewrite !bind_run.
    destruct (body x E w) as [[[]|e|] w0]; [|discriminate..].
    apply IH.
Qed.

Lemma trades_cancelled_in_backoff (E : env) (m : nat) (trading_pairs : list string)
    (w w1 : world) (e : exn) :
  trades_session (S m) trading_pairs (sessions w) E (new_session E w).2
    = (Raise e, w1) →
  is_Exception e = true →
  sleep_outcome E (tick w1) = Some CancelledError →
  ∃ evs w2,
    listen_for_trades (S m) trading_pairs E w
    = (Raise (after_cleanup (disconnect_outcome E (S (tick w1)))), w2)
    ∧ trace w2 = trace w ++ [Created (sessions w)] ++ evs
                 ++ [Log ERROR "Unexpected error."; Sleep (Qc_of_Z 5);
                     Disconnect (sessions w)]
    ∧ Forall stream_event evs.
Proof.
  intros Hbody Hexc Hcancel.
  destruct (trades_session_emits (S m) trading_pairs (sessions w) E
              (new_session E w).2) as (evs & Htrace & Hevs).
  rewrite Hbody in Htrace. cbn [snd new_session trace] in Htrace.
  pose proof (backoff_cancelled _ ERROR "Unexpected error." (Qc_of_Z 5)
                E _ w1 e Hbody Hexc Hcancel) as Hround.
  exists evs. eexists. split; [|split; [|exact Hevs]].
  - unfold listen_for_trades. apply forever_raise.
    unfold trades_round. rewrite bind_run. cbn [new_session].
    unfold try_finally. fold trades_backoff in Hround.
    cbn [new_session snd] in Hround. rewrite Hround.
    unfold disconnect. rewrite (suspend_run (A:=unit)). cbn [tick advance record].
    destruct (disconnect_outcome E (S (tick w1))); reflexivity.
  - cbn [trace advance record]. rewrite Htrace, <- !app_assoc. reflexivity.
Qed.

Lemma diffs_cancelled_in_backoff (E : env) (m : nat) (trading_pairs : list string)
    (w w1 : world) (e : exn) :
  diffs_session (S m) trading_pairs (sessions w) E (new_session E w).2
    = (Raise e, w1) →
  is_Exception e = true →
  sleep_outcome E (tick w1) = Some CancelledError →
  ∃ evs w2,
    listen_for_order_book_diffs (S m) trading_pairs E w
    = (Raise (after_cleanup (disconnect_outcome E (S (tick w1)))), w2)
    ∧ trace w2 = trace w ++ [Created (sessions w)] ++ evs
                 ++ [Log NETWORK "Unexpected error with WebSocket connection.";
                     Sleep (Qc_of_Z 30); Disconnect (sessions w)]
    ∧ Forall stream_event evs.
Proof.
  intros Hbody Hexc Hcancel.
  destruct (diffs_session_emits (S m) trading_pairs (sessions w) E
              (new_session E w).2) as (evs & Htrace & Hevs).
  rewrite Hbody in Htrace. cbn [snd new_session trace] in Htrace.
  pose proof (backoff_cancelled _ NETWORK
                "Unexpected error with WebSocket connection." (Qc_of_Z 30)
                E _ w1 e Hbody Hexc Hcancel) as Hround.
  exists evs. eexists. split; [|split; [|exact Hevs]].
  - unfold listen_for_order_book_diffs. apply forever_raise.
    unfold diffs_round. rewrite bind_run. cbn [new_session].
    unfold try_finally. fold diffs_backoff in Hround.
    cbn [new_session snd] in Hround. rewrite Hround.
    unfold disconnect. rewrite (suspend_run (A:=unit)). cbn [tick advance record].
    destruct (disconnect_outcome E (S (tick w1))); reflexivity.
  - cbn [trace advance record]. rewrite Htrace, <- !app_assoc. reflexivity.
Qed.

(** A cancellation that leaves [snapshot_of_pair] leaves the relay. *)
Lemma snapshots_cancelled_at_pair (E : env) (m : nat)
    (done rest : list string) (trading_pair : string) (w w1 w2 : world) :
  for_each done snapshot_of_pair E w = (Ret tt, w1) →
  snapshot_of_pair trading_pair E w1 = (Raise CancelledError, w2) →
  listen_for_order_book_snapshots (S m) (done ++ trading_pair :: rest) E w
  = (Raise CancelledError, w2).
Proof.
  intros Hdone Hpair. unfold listen_for_order_book_snapshots.
  apply forever_raise. unfold snapshots_round, try_except, snapshot_cycle.
  rewrite bind_run, (for_each_app _ _ _ _ _ _ Hdone). cbn [for_each].
  by rewrite bind_run, Hpair.
Qed.

Lemma snapshot_of_pair_cancelled_in_acquire (E : env) (trading_pair : string)
    (w : world) :
  acquire_outcome E GET_ORDER_BOOK_PATH_URL (tick w) = Some CancelledError →
  snapshot_of_pair trading_pair E w
  = (Raise CancelledError, advance (record (Acquire GET_ORDER_BOOK_PATH_URL) w)).
Proof.
  intros Hcancel.
  unfold snapshot_of_pair, try_except, get_order_book_data, with_execute_task.
  by rewrite !bind_run, (suspend_run (A:=unit)), Hcancel.
Qed.

Lemma snapshot_of_pair_cancelled_in_backoff (E : env) (trading_pair : string)
    (w w1 : world) (e : exn) :
  get_order_book_data trading_pair E w = (Raise e, w1) →
  is_Exception e = true →
  sleep_outcome E (tick w1) = Some CancelledError →
  snapshot_of_pair trading_pair E w
  = (Raise CancelledError,
     advance (record (Sleep (Qc_of_Z 5))
                (record (Log NETWORK "Unexpected error with WebSocket connection.")
                        w1))).
Proof.
  intros Hfetch Hexc Hcancel. unfold snapshot_of_pair, snapshot_backoff.
  apply (backoff_cancelled _ _ _ _ _ _ _ e); [|done..].
  by rewrite bind_run, Hfetch.
Qed.

Lemma snapshots_cancelled_in_round_backoff (E : env) (m : nat)
    (trading_pairs : list string) (w w1 : world) (e : exn) :
  snapshot_cycle trading_pairs E w = (Raise e, w1) →
  is_Exception e = true →
  sleep_outcome E (tick w1) = Some CancelledError →
  listen_for_order_book_snapshots (S m) trading_pairs E w
  = (Raise CancelledError,
     advance (record (Sleep (Qc_of_Z 5))
                (record (Log ERROR "Unexpected error.") w1))).
Proof.
  intros Hcycle Hexc Hcancel. unfold listen_for_order_book_snapshots.
  apply forever_raise. unfold snapshots_round.
  by apply (backoff_cancelled _ _ _ _ _ _ _ e).
Qed.

(** C4 (amended): a cancellation delivered at a suspension point of the
    admission loop ends the loop with the cancellation and without a new
    task-log entry; delivered in the backoff sleep of the trade or the diff
    relay it leaves the relay as the cancellation provided the one cleanup
    disconnect, on the session that round created, returns, and those
    relays never reach the throttler; delivered to the snapshot relay while
    it waits for the permit or sleeps in a backoff it leaves the relay,
    which has no stream session at all. *)
Theorem cancellation_propagates
    (prune : Throttler.Seconds → VariedRateRequestContext → list TaskLog
             → list TaskLog)
    (m : nat) (trading_pairs : list string) :
  (∀ now self task_logs, prune now self task_logs `sublist_of` task_logs) →
  (∀ n clock sleeps self k task_logs waiting,
     Throttler.acquire prune n clock sleeps k self task_logs = (Pending, waiting) →
     within_capacity self (prune (clock (k + n)%nat) self waiting) = false →
     sleeps (k + n)%nat = Some CancelledError →
     ∃ task_logs',
       Throttler.acquire prune (n + S m) clock sleeps k self task_logs
       = (Raise CancelledError, task_logs')
       ∧ task_logs' `sublist_of` task_logs)
  ∧ (∀ E w w1 e,
       trades_session (S m) trading_pairs (sessions w) E (new_session E w).2
         = (Raise e, w1) →
       is_Exception e = true →
       sleep_outcome E (tick w1) = Some CancelledError →
       disconnect_outcome E (S (tick w1)) = None →
       ∃ evs w2,
         listen_for_trades (S m) trading_pairs E w
         = (Raise CancelledError, w2)
         ∧ trace w2 = trace w ++ [Created (sessions w)] ++ evs
                      ++ [Log ERROR "Unexpected error."; Sleep (Qc_of_Z 5);
                          Disconnect (sessions w)]
         ∧ Forall stream_event evs)
  ∧ (∀ E w w1 e,
       diffs_session (S m) trading_pairs (sessions w) E (new_session E w).2
         = (Raise e, w1) →
       is_Exception e = true →
       sleep_outcome E (tick w1) = Some CancelledError →
       disconnect_outcome E (S (tick w1)) = None →
       ∃ evs w2,
         listen_for_order_book_diffs (S m) trading_pairs E w
         = (Raise CancelledError, w2)
         ∧ trace w2 = trace w ++ [Created (sessions w)] ++ evs
                      ++ [Log NETWORK "Unexpected error with WebSocket connection.";
                          Sleep (Qc_of_Z 30); Disconnect (sessions w)]
         ∧ Forall stream_event evs)
  ∧ (∀ E done trading_pair rest w w1,
       for_each done snapshot_of_pair E w = (Ret tt, w1) →
       acquire_outcome E GET_ORDER_BOOK_PATH_URL (tick w1) = Some CancelledError →
       listen_for_order_book_snapshots (S m) (done ++ trading_pair :: rest) E w
       = (Raise CancelledError,
          advance (record (Acquire GET_ORDER_BOOK_PATH_URL) w1)))
  ∧ (∀ E done trading_pair rest w w1 w2 e,
       for_each done snapshot_of_pair E w = (Ret tt, w1) →
       get_order_book_data trading_pair E w1 = (Raise e, w2) →
       is_Exception e = true →
       sleep_outcome E (tick w2) = Some CancelledError →
       listen_for_order_book_snapshots (S m) (done ++ trading_pair :: rest) E w
       = (Raise CancelledError,
          advance (record (Sleep (Qc_of_Z 5))
                     (record (Log NETWORK
                                "Unexpected error with WebSocket connection.")
                             w2))))
  ∧ (∀ E w w1 e,
       snapshot_cycle trading_pairs E w = (Raise e, w1) →
       is_Exception e = true →
       sleep_outcome E (tick w1) = Some CancelledError →
       listen_for_order_book_snapshots (S m) trading_pairs E w
       = (Raise CancelledError,
          advance (record (Sleep (Qc_of_Z 5))
                     (record (Log ERROR "Unexpected error.") w1))))
  ∧ emits (λ ev, ¬ throttler_event ev) (listen_for_trades (S m) trading_pairs)
  ∧ emits (λ ev, ¬ throttler_event ev)
          (listen_for_order_book_diffs (S m) trading_pairs)
  ∧ emits (λ ev, ¬ session_event ev)
          (listen_for_order_book_snapshots (S m) trading_pairs).
Proof.
  intros Hprune. split_and!.
  - intros n clock sleeps self k task_logs waiting.
    by apply acquire_cancelled.
  - intros E w w1 e Hbody Hexc Hcancel Hclosed.
    destruct (trades_cancelled_in_backoff E m trading_pairs w w1 e
                Hbody Hexc Hcancel) as (evs & w2 & Hrun & Htrace & Hevs).
    rewrite Hclosed in Hrun. by exists evs, w2.
  - intros E w w1 e Hbody Hexc Hcancel Hclosed.
    destruct (diffs_cancelled_in_backoff E m trading_pairs w w1 e
                Hbody Hexc Hcancel) as (evs & w2 & Hrun & Htrace & Hevs).
    rewrite Hclosed in Hrun. by exists evs, w2.
  - intros E done trading_pair rest w w1 Hdone Hcancel.
    eapply snapshots_cancelled_at_pair; [exact Hdone|].
    by apply snapshot_of_pair_cancelled_in_acquire.
  - intros E done trading_pair rest w w1 w2 e Hdone Hfetch Hexc Hcancel.
    eapply snapshots_cancelled_at_pair; [exact Hdone|].
    by eapply snapshot_of_pair_cancelled_in_backoff.
  - intros E w w1 e. apply snapshots_cancelled_in_round_backoff.
  - apply listen_for_trades_no_throttler.
  - apply listen_for_order_book_diffs_no_throttler.
  - apply listen_for_order_book_snapshots_no_session.
Qed.

End DataSourceFacts.

(** * The theorems at concrete inputs *)

Lemma get_order_book_data_status_witness :
  (@get_order_book_data crypto_com "BTC-USDT" (online (λ _, Ok book_response)) start).1
  = Ret (book 1700000000000).
Proof.
  destruct (get_order_book_data_status (H := crypto_com)
              (online (λ _, Ok book_response)) start "BTC-USDT" book_response
              eq_refl eq_refl) as (_ & _ & Hdecoded & _).
  exact (Hdecoded eq_refl _ _ _ _ eq_refl eq_refl eq_refl eq_refl).
Defined.



Lemma get_last_traded_prices_first_match_witness :
  ∃ result,
    (@get_last_traded_prices crypto_com ["BTC-USDT"; "ETH-USDT"; "XRP-USDT"]
       (online (λ _, Ok ticker_response)) start).1 = Ret result
    ∧ result !! "BTC-USDT" = None
    ∧ result !! "ETH-USDT" = Some (JInt 7)
    ∧ result !! "XRP-USDT" = None
    ∧ result !! "LTC-USDT" = None.
Proof.
  destruct (get_last_traded_prices_first_match (H := crypto_com)
              (online (λ _, Ok ticker_response)) start
              ["BTC-USDT"; "ETH-USDT"; "XRP-USDT"] ticker_response
              (JObj [("result", JObj [("data", JList ticker_data)])])
              (JObj [("data", JList ticker_data)]) ticker_data
              eq_refl eq_refl eq_refl eq_refl eq_refl)
    as (result & Hrun & Hlookup).
  - repeat constructor; by eexists _, _.
  - exists result. split; [exact Hrun|]. split_and!.
    + destruct (Hlookup "BTC-USDT") as (_ & _ & Hnull & _).
      exact (Hnull (JObj [("i", JStr "BTC_USDT"); ("a", JNull)]) eq_refl eq_refl).
    + destruct (Hlookup "ETH-USDT") as (_ & _ & _ & Hprice).
      apply (Hprice (JObj [("i", JStr "ETH_USDT"); ("a", JInt 7)]) (JInt 7));
        [|reflexivity..].
      apply list_elem_of_further, list_elem_of_here.
    + destruct (Hlookup "XRP-USDT") as (_ & Hmissing & _).
      exact (Hmissing eq_refl).
    + destruct (Hlookup "LTC-USDT") as (Hnot_requested & _).
      apply Hnot_requested.
      intros Hin. repeat (apply elem_of_cons in Hin as [Hin|Hin]; [discriminate|]).
      by apply elem_of_nil in Hin.
Defined.

Lemma fetch_trading_pairs_request_failure_witness :
  (@fetch_trading_pairs crypto_com (offline 0) start).1 = Raise ClientError.
Proof.
  exact (fetch_trading_pairs_request_failure (H := crypto_com) (offline 0) start
           ClientError eq_refl eq_refl).
Defined.

Lemma refresh_cycle_skips_failing_pair_witness :
  ∃ w' k delay n,
    @snapshot_cycle crypto_com ["BTC-USDT"; "ETH-USDT"; "XRP-USDT"]
      (online eth_fails) start = (Ret tt, w')
    ∧ @snapshots_round crypto_com ["BTC-USDT"; "ETH-USDT"; "XRP-USDT"]
        (online eth_fails) start = (Ret tt, w')
    ∧ published (trace w')
      = published (trace start)
        ++ [snapshot_message_from_exchange (book 1700000000000) 1700000000
              "BTC-USDT";
            snapshot_message_from_exchange (book 1700000000000) 1700000000
              "XRP-USDT"]
    ∧ logged NETWORK (trace w')
      = logged NETWORK (trace start)
        ++ ["Unexpected error with WebSocket connection."]
    ∧ logged ERROR (trace w') = logged ERROR (trace start)
    ∧ last (trace w') = Some (Sleep delay)
    ∧ tick w' = S k
    ∧ (Qc_of_Z (3600 * (n - 1)) <= utcnow (online eth_fails) k)%Qc
    ∧ (utcnow (online eth_fails) k < Qc_of_Z (3600 * n))%Qc
    ∧ (clock (online eth_fails) k + delay)%Qc = Qc_of_Z (3600 * n).
Proof.
  apply (refresh_cycle_skips_failing_pair (H := crypto_com) (online eth_fails)
           start "BTC-USDT" "ETH-USDT" "XRP-USDT"
           (book 1700000000000) (book 1700000000000)
           (JInt 1700000000000) (JInt 1700000000000) 1700000000 1700000000).
  - intros k. reflexivity.
  - intros w0. reflexivity.
  - reflexivity.
  - reflexivity.
  - intros w0. exists ClientError. split; reflexivity.
  - intros w0. reflexivity.
  - reflexivity.
  - reflexivity.
Defined.

(** C4, as stated, fails: connecting fails, the cancellation is delivered
    in the backoff sleep of the handler, and the disconnect of the
    [finally] clause raises: the trade relay and the diff relay end with
    the error of the disconnect, not with the cancellation. *)
Lemma cancellation_replaced_by_cleanup_error :
  let E := cancelled_then_closing_fails in
  ∃ w1 w2 w3,
    @trades_session crypto_com 1 ["BTC-USDT"] 0 E (new_session E start).2
    = (Raise TimeoutError, w1)
    ∧ sleep_outcome E (tick w1) = Some CancelledError
    ∧ @listen_for_trades crypto_com 1 ["BTC-USDT"] E start = (Raise ClientError, w2)
    ∧ trace w2 = [Created 0; Connect 0; Log ERROR "Unexpected error.";
                  Sleep (Qc_of_Z 5); Disconnect 0]
    ∧ @listen_for_order_book_diffs crypto_com 1 ["BTC-USDT"] E start
      = (Raise ClientError, w3)
    ∧ trace w3 = [Created 0; Connect 0;
                  Log NETWORK "Unexpected error with WebSocket connection.";
                  Sleep (Qc_of_Z 30); Disconnect 0]
    ∧ (@listen_for_trades crypto_com 1 ["BTC-USDT"] E start).1
      ≠ Raise CancelledError
    ∧ (@listen_for_order_book_diffs crypto_com 1 ["BTC-USDT"] E start).1
      ≠ Raise CancelledError.
Proof.
  cbv zeta. do 3 eexists. split_and!; [reflexivity..|discriminate|discriminate].
Qed.

Lemma cancellation_propagates_witness :
  (∃ task_logs',
     Throttler.acquire flush 1 (λ _, Qc_of_Z 0) (λ _, Some CancelledError) 0
       heavy_context full_log = (Raise CancelledError, task_logs')
     ∧ task_logs' `sublist_of` full_log)
  ∧ (∃ evs w2,
       @listen_for_trades crypto_com 1 ["BTC-USDT"] (offline 2) start
       = (Raise CancelledError, w2)
       ∧ trace w2 = trace start ++ [Created 0] ++ evs
                    ++ [Log ERROR "Unexpected error."; Sleep (Qc_of_Z 5);
                        Disconnect 0]
       ∧ Forall stream_event evs)
  ∧ (∃ evs w2,
       @listen_for_order_book_diffs crypto_com 1 ["BTC-USDT"] (offline 2) start
       = (Raise CancelledError, w2)
       ∧ trace w2 = trace start ++ [Created 0] ++ evs
                    ++ [Log NETWORK "Unexpected error with WebSocket connection.";
                        Sleep (Qc_of_Z 30); Disconnect 0]
       ∧ Forall stream_event evs)
  ∧ @listen_for_order_book_snapshots crypto_com 1 ["BTC-USDT"]
      cancelled_in_acquire start
    = (Raise CancelledError, advance (record (Acquire "public/get-book") start))
  ∧ (@listen_for_order_book_snapshots crypto_com 1 ["BTC-USDT"]
       (offline 5) start).1 = Raise CancelledError
  ∧ (@listen_for_order_book_snapshots crypto_com 1 ["BTC-USDT"]
       (offline 2) start).1 = Raise CancelledError.
Proof.
  destruct (cancellation_propagates (H := crypto_com) flush 0 ["BTC-USDT"]
              flush_sublist)
    as (Hacquire & Htrades & Hdiffs & Hpermit & Hpair & Hround & _).
  split_and!.
  - exact (Hacquire 0%nat (λ _, Qc_of_Z 0) (λ _, Some CancelledError)
             heavy_context 0%nat full_log full_log eq_refl eq_refl eq_refl).
  - exact (Htrades (offline 2) start _ ClientError eq_refl eq_refl eq_refl
             eq_refl).
  - exact (Hdiffs (offline 2) start _ ClientError eq_refl eq_refl eq_refl
             eq_refl).
  - exact (Hpermit cancelled_in_acquire [] "BTC-USDT" [] start start
             eq_refl eq_refl).
  - exact (f_equal fst
             (Hpair (offline 5) [] "BTC-USDT" [] start start _ ClientError
                eq_refl eq_refl eq_refl eq_refl)).
  - exact (f_equal fst
             (Hround (offline 2) start _ TimeoutError eq_refl eq_refl eq_refl)).
Defined.

(** * Further properties of the throttler *)

Section MoreThrottlerFacts.

Implicit Types (self : VariedRateRequestContext) (task_logs : list TaskLog).

(** X1: pruning never takes capacity away: a request that is within capacity
    on a log is within capacity on every log obtained from it by removing
    entries. *)
Theorem within_capacity_after_pruning self (pruned task_logs : list TaskLog) :
  pruned `sublist_of` task_logs →
  within_capacity self task_logs = true →
  within_capacity self pruned = true.
Proof.
  intros Hsub. rewrite !within_capacity_count.
  pose proof (tasks_of_length_sublist (path_url (_rate_limit self)) _ _ Hsub).
  lia.
Qed.

(** X2: the quota of an endpoint is independent of the traffic on the
    others: an entry recorded for another path, wherever it sits in the
    shared log, does not change the decision. *)
Theorem within_capacity_ignores_other_paths self (before after : list TaskLog)
    (task : TaskLog) :
  task_path_url task ≠ path_url (_rate_limit self) →
  within_capacity self (before ++ task :: after)
  = within_capacity self (before ++ after).
Proof.
  intros Hother.
  assert (Hskip : tasks_of (path_url (_rate_limit self)) (task :: after)
                  = tasks_of (path_url (_rate_limit self)) after).
  { unfold tasks_of. rewrite filter_cons. by case_decide. }
  unfold within_capacity. by rewrite !tasks_of_app, Hskip.
Qed.

(** X3: the check reads the path of a logged task and nothing else: two
    logs that agree path by path give the same decision, whatever the
    timestamps and weights of their entries. *)
Theorem within_capacity_reads_paths_only self (task_logs task_logs' : list TaskLog) :
  Forall2 (λ task task', task_path_url task = task_path_url task')
          task_logs task_logs' →
  within_capacity self task_logs = within_capacity self task_logs'.
Proof.
  intros Hpaths.
  assert (Hcount : length (tasks_of (path_url (_rate_limit self)) task_logs)
                   = length (tasks_of (path_url (_rate_limit self)) task_logs')).
  { induction Hpaths as [|task task' l l' Hp _ IH]; [done|].
    unfold tasks_of in *. rewrite !filter_cons, <- Hp.
    case_decide; cbn [length]; by rewrite IH. }
  unfold within_capacity. by rewrite Hcount.
Qed.

(** X4: an endpoint whose weight exceeds its limit is never admitted, not
    even on an empty log; on an empty log a request is admitted exactly
    when its weight is at most the limit. *)
Theorem within_capacity_weight_above_limit self :
  (limit (_rate_limit self) < weight (_rate_limit self) →
   ∀ task_logs, within_capacity self task_logs = false)
  ∧ (within_capacity self [] = true ↔
     weight (_rate_limit self) ≤ limit (_rate_limit self)).
Proof.
  split.
  - intros Habove task_logs. apply not_true_is_false.
    rewrite within_capacity_count. lia.
  - rewrite within_capacity_count. cbn. lia.
Qed.

End MoreThrottlerFacts.

Lemma within_capacity_after_pruning_witness :
  within_capacity heavy_context [] = true.
Proof.
  apply (within_capacity_after_pruning heavy_context []
           [ {| timestamp := Qc_of_Z 0; task_path_url := "public/get-book";
                task_weight := 2 |} ]).
  - apply sublist_nil_l.
  - reflexivity.
Defined.

Lemma within_capacity_ignores_other_paths_witness :
  within_capacity heavy_context
    (full_log ++ {| timestamp := Qc_of_Z 0; task_path_url := "public/get-ticker";
                    task_weight := 1 |} :: [])
  = within_capacity heavy_context (full_log ++ []).
Proof.
  apply (within_capacity_ignores_other_paths heavy_context full_log []).
  discriminate.
Defined.

Lemma within_capacity_reads_paths_only_witness :
  within_capacity heavy_context full_log
  = within_capacity heavy_context
      [ {| timestamp := Qc_of_Z 7; task_path_url := "public/get-book";
           task_weight := 0 |};
        {| timestamp := Qc_of_Z 9; task_path_url := "public/get-book";
           task_weight := 50 |} ].
Proof.
  apply (within_capacity_reads_paths_only heavy_context).
  repeat constructor.
Defined.

Lemma within_capacity_weight_above_limit_witness :
  let self := {| _rate_limit := {| limit := 1; time_interval := Qc_of_Z 1;
                                   path_url := "public/get-book"; weight := 2 |};
                 ctx_period_safety_margin := Q2Qc (1 # 10);
                 ctx_retry_interval := Q2Qc (1 # 10) |} in
  within_capacity self [] = false.
Proof.
  intros self.
  destruct (within_capacity_weight_above_limit self) as [Hnever _].
  apply Hnever. vm_compute. reflexivity.
Defined.

(** * Further properties of the REST calls *)

Section MoreRestFacts.

Context `{Constants}.

(** X5: no request is sent without a permit: when entering
    [throttler.execute_task] raises, each of the three REST calls raises
    the same exception and the only thing it has done is to ask for the
    permit. *)
Theorem no_request_without_permit (E : env) (w : world) (e : exn)
    (trading_pair : string) (trading_pairs : list string) :
  (acquire_outcome E GET_ORDER_BOOK_PATH_URL (tick w) = Some e →
   get_order_book_data trading_pair E w
   = (Raise e, advance (record (Acquire GET_ORDER_BOOK_PATH_URL) w)))
  ∧ (acquire_outcome E GET_TICKER_PATH_URL (tick w) = Some e →
     fetch_trading_pairs E w
     = (Raise e, advance (record (Acquire GET_TICKER_PATH_URL) w))
     ∧ get_last_traded_prices trading_pairs E w
       = (Raise e, advance (record (Acquire GET_TICKER_PATH_URL) w))).
Proof.
  split; [intros Hfail | intros Hfail; split].
  - unfold get_order_book_data, with_execute_task.
    by rewrite bind_run, (suspend_run (A:=unit)), Hfail.
  - unfold fetch_trading_pairs, with_execute_task.
    by rewrite bind_run, (suspend_run (A:=unit)), Hfail.
  - unfold get_last_traded_prices, with_execute_task.
    by rewrite bind_run, (suspend_run (A:=unit)), Hfail.
Qed.

Lemma collect_symbols (items : list json) (symbols : list string) :
  Forall2 (λ item symbol, getitem "i" item = Ret (JStr symbol)) items symbols →
  collect (λ item, i ← getitem "i" item; convert_from_exchange i) items
  = Ret (convert_from_exchange_trading_pair <$> symbols).
Proof.
  induction 1 as [|item symbol items symbols Hi _ IH]; [done|].
  cbn [collect]. rewrite Hi. cbn [mbind res_bind convert_from_exchange].
  by rewrite IH.
Qed.

(** X6: on status 200 with a body whose [result.data] lists entries with a
    string symbol [i], [fetch_trading_pairs] returns the translated symbols,
    one per entry and in the order of the body. *)
Theorem fetch_trading_pairs_lists_symbols (E : env) (w : world)
    (resp : response) (body result : json) (items : list json)
    (symbols : list string) :
  acquire_outcome E GET_TICKER_PATH_URL (tick w) = None →
  get_outcome E (get_rest_url GET_TICKER_PATH_URL) [] (S (tick w)) = Ok resp →
  status resp = 200 →
  json_outcome resp = Ok body →
  getitem "result" body = Ret result →
  getitem "data" result = Ret (JList items) →
  Forall2 (λ item symbol, getitem "i" item = Ret (JStr symbol)) items symbols →
  (fetch_trading_pairs E w).1
  = Ret (convert_from_exchange_trading_pair <$> symbols)
  ∧ length (convert_from_exchange_trading_pair <$> symbols) = length items.
Proof.
  intros Hacq Hget Hst Hjson Hres Hdata Hitems. split.
  - unfold fetch_trading_pairs, with_execute_task, client_get.
    rewrite bind_run, (suspend_run (A:=unit)), Hacq. cbn [of_option].
    rewrite bind_run, suspend_run. cbn [tick advance record]. rewrite Hget.
    rewrite decide_True by exact Hst.
    unfold try_except, response_json. rewrite lift_bind_run, Hjson.
    unfold lift, trading_pairs_of. rewrite Hres. cbn [mbind res_bind].
    rewrite Hdata. cbn [mbind res_bind iterate].
    by rewrite (collect_symbols _ _ Hitems).
  - rewrite length_fmap. symmetry. by eapply Forall2_length.
Qed.

Lemma trading_pairs_of_no_fuel (data : json) : trading_pairs_of data ≠ Pending.
Proof.
  unfold trading_pairs_of.
  destruct (getitem "result" data) as [r|e|] eqn:Hr; cbn [mbind res_bind];
    [|discriminate|by apply getitem_not_pending in Hr].
  destruct (getitem "data" r) as [d|e|] eqn:Hd; cbn [mbind res_bind];
    [|discriminate|by apply getitem_not_pending in Hd].
  destruct (iterate d) as [items|e|] eqn:Hit; cbn [mbind res_bind];
    [|discriminate|by destruct d].
  clear. induction items as [|item items IH]; [discriminate|].
  cbn [collect].
  destruct (getitem "i" item) as [i|e|] eqn:Hi; cbn [mbind res_bind];
    [|discriminate|by apply getitem_not_pending in Hi].
  destruct (convert_from_exchange i) as [pair|e|] eqn:Hc; cbn [mbind res_bind];
    [|discriminate|by destruct i].
  destruct (collect _ items); cbn [mbind res_bind]; [discriminate..|done].
Qed.

(** X7: once the response has arrived, [fetch_trading_pairs] returns a list
    whatever the status and the body are; the one exception is a
    cancellation delivered while the body of a 200 response is decoded. *)
Theorem fetch_trading_pairs_after_response (E : env) (w : world)
    (resp : response) :
  acquire_outcome E GET_TICKER_PATH_URL (tick w) = None →
  get_outcome E (get_rest_url GET_TICKER_PATH_URL) [] (S (tick w)) = Ok resp →
  (∃ pairs, (fetch_trading_pairs E w).1 = Ret pairs)
  ∨ ((fetch_trading_pairs E w).1 = Raise CancelledError
     ∧ status resp = 200
     ∧ json_outcome resp = Failed CancelledError).
Proof.
  intros Hacq Hget.
  destruct (fetch_trading_pairs_swallows E w resp Hacq Hget)
    as (Hstatus & Hdecode & Hread).
  destruct (decide (status resp = 200)) as [Hst|Hst]; [|left; eauto].
  destruct (json_outcome resp) as [body|e] eqn:Hjson.
  - destruct (trading_pairs_of body) as [pairs|e|] eqn:Hpairs.
    + left. exists pairs.
      unfold fetch_trading_pairs, with_execute_task, client_get.
      rewrite bind_run, (suspend_run (A:=unit)), Hacq. cbn [of_option].
      rewrite bind_run, suspend_run. cbn [tick advance record]. rewrite Hget.
      rewrite decide_True by exact Hst.
      unfold try_except, response_json. rewrite lift_bind_run, Hjson.
      unfold lift. by rewrite Hpairs.
    + left. eauto.
    + by apply trading_pairs_of_no_fuel in Hpairs.
  - destruct (is_Exception e) eqn:Hexc; [left; eauto|].
    destruct e; try discriminate. right.
    split; [|done].
    unfold fetch_trading_pairs, with_execute_task, client_get.
    rewrite bind_run, (suspend_run (A:=unit)), Hacq. cbn [of_option].
    rewrite bind_run, suspend_run. cbn [tick advance record]. rewrite Hget.
    rewrite decide_True by exact Hst.
    unfold try_except, response_json. by rewrite lift_bind_run, Hjson.
Qed.

Lemma get_last_traded_prices_run (E : env) (w : world)
    (trading_pairs : list string) (resp : response) :
  acquire_outcome E GET_TICKER_PATH_URL (tick w) = None →
  get_outcome E (get_rest_url GET_TICKER_PATH_URL) [] (S (tick w)) = Ok resp →
  (get_last_traded_prices trading_pairs E w).1
  = match json_outcome resp with
    | Ok resp_json => last_traded_prices_loop resp_json trading_pairs ∅
    | Failed e => Raise e
    end.
Proof.
  intros Hacq Hget.
  unfold get_last_traded_prices, with_execute_task, client_get, response_json.
  rewrite bind_run, (suspend_run (A:=unit)), Hacq. cbn [of_option].
  rewrite bind_run, suspend_run. cbn [tick advance record]. rewrite Hget.
  rewrite lift_bind_run. by destruct (json_outcome resp).
Qed.

Lemma get_last_traded_prices_returned (E : env) (w : world)
    (trading_pairs : list string) (result : gmap string json) :
  (get_last_traded_prices trading_pairs E w).1 = Ret result →
  ∃ resp_json, last_traded_prices_loop resp_json trading_pairs ∅ = Ret result.
Proof.
  unfold get_last_traded_prices, with_execute_task, client_get, response_json.
  rewrite bind_run, (suspend_run (A:=unit)).
  destruct (acquire_outcome E GET_TICKER_PATH_URL (tick w)); [discriminate|].
  cbn [of_option]. rewrite bind_run, suspend_run.
  destruct (get_outcome _ _ _ _) as [resp|e]; [|discriminate].
  rewrite lift_bind_run.
  destruct (json_outcome resp) as [resp_json|e]; [|discriminate].
  unfold lift. cbn [fst]. eauto.
Qed.

(** X8: with no pair requested the body is never read: whatever the status
    and the decoded document are, the result is the empty mapping. *)
Theorem get_last_traded_prices_no_pairs (E : env) (w : world)
    (resp : response) (resp_json : json) :
  acquire_outcome E GET_TICKER_PATH_URL (tick w) = None →
  get_outcome E (get_rest_url GET_TICKER_PATH_URL) [] (S (tick w)) = Ok resp →
  json_outcome resp = Ok resp_json →
  (get_last_traded_prices [] E w).1 = Ret ∅.
Proof.
  intros Hacq Hget Hjson.
  by rewrite (get_last_traded_prices_run _ _ _ _ Hacq Hget), Hjson.
Qed.

Lemma last_traded_prices_loop_entries (resp_json : json)
    (trading_pairs : list string) : ∀ result0 result,
  last_traded_prices_loop resp_json trading_pairs result0 = Ret result →
  ∀ t_pair price, result !! t_pair = Some price →
    result0 !! t_pair = Some price
    ∨ (t_pair ∈ trading_pairs ∧ is_None price = false).
Proof.
  induction trading_pairs as [|q rest IH]; intros result0 result.
  - cbn. intros [= <-]. auto.
  - cbn [last_traded_prices_loop].
    destruct (getitem "result" resp_json) as [r|e|]; cbn [mbind res_bind];
      [|discriminate..].
    destruct (getitem "data" r) as [d|e|]; cbn [mbind res_bind]; [|discriminate..].
    destruct (iterate d) as [data|e|]; cbn [mbind res_bind]; [|discriminate..].
    destruct (last_trade_of _ data) as [[|first tail]|e|]; cbn [mbind res_bind];
      [| |discriminate..].
    + intros Hrest t_pair price Hlook.
      destruct (IH _ _ Hrest _ _ Hlook) as [?|[Hin ?]]; [by left|right].
      split; [by apply list_elem_of_further | done].
    + destruct (is_None first) eqn:Hfirst; intros Hrest t_pair price Hlook.
      * destruct (IH _ _ Hrest _ _ Hlook) as [?|[Hin ?]]; [by left|right].
        split; [by apply list_elem_of_further | done].
      * destruct (IH _ _ Hrest _ _ Hlook) as [Hprev|[Hin ?]].
        -- destruct (decide (q = t_pair)) as [->|Hne].
           ++ rewrite lookup_insert_eq in Hprev. injection Hprev as <-.
              right. split; [apply list_elem_of_here | done].
           ++ rewrite lookup_insert_ne in Hprev by exact Hne. by left.
        -- right. split; [by apply list_elem_of_further | done].
Qed.

(** X9: whatever the body, a mapping returned by [get_last_traded_prices]
    has an entry only for requested pairs and never holds a null price. *)
Theorem get_last_traded_prices_entries (E : env) (w : world)
    (trading_pairs : list string) (result : gmap string json)
    (t_pair : string) (price : json) :
  (get_last_traded_prices trading_pairs E w).1 = Ret result →
  result !! t_pair = Some price →
  t_pair ∈ trading_pairs ∧ is_None price = false.
Proof.
  intros Hret Hlook.
  destruct (get_last_traded_prices_returned _ _ _ _ Hret) as (resp_json & Hloop).
  destruct (last_traded_prices_loop_entries _ _ _ _ Hloop _ _ Hlook) as [Hempty|?];
    [|done].
  by rewrite lookup_empty in Hempty.
Qed.

(** X10: on a body whose [result.data] is a list of ticker entries the
    result depends on the set of requested pairs only: asking for a pair
    twice, or for the pairs in another order, gives the same mapping. *)
Theorem get_last_traded_prices_order_irrelevant (E : env) (w : world)
    (trading_pairs trading_pairs' : list string) (resp : response)
    (resp_json r : json) (data : list json) :
  acquire_outcome E GET_TICKER_PATH_URL (tick w) = None →
  get_outcome E (get_rest_url GET_TICKER_PATH_URL) [] (S (tick w)) = Ok resp →
  json_outcome resp = Ok resp_json →
  getitem "result" resp_json = Ret r →
  getitem "data" r = Ret (JList data) →
  Forall ticker_entry data →
  (∀ t_pair, t_pair ∈ trading_pairs ↔ t_pair ∈ trading_pairs') →
  (get_last_traded_prices trading_pairs E w).1
  = (get_last_traded_prices trading_pairs' E w).1.
Proof.
  intros Hacq Hget Hjson Hr Hd Hdata Hsame.
  rewrite !(get_last_traded_prices_run _ _ _ _ Hacq Hget), Hjson.
  rewrite !(last_traded_prices_loop_fold _ _ _ _ _ Hr Hd Hdata).
  f_equal. apply map_eq. intros t_pair.
  rewrite !record_price_fold_lookup.
  destruct (decide (t_pair ∈ trading_pairs)) as [Hin|Hnin];
    destruct (decide (t_pair ∈ trading_pairs')) as [Hin'|Hnin']; try done.
  - exfalso. by apply Hnin', Hsame.
  - exfalso. by apply Hnin, Hsame.
Qed.

(** X11: [get_last_traded_prices] never looks at the HTTP status, and it
    has no handler: two responses with the same body give the same result
    whatever their status codes, and a failure to decode the body leaves
    the call as it is. *)
Theorem get_last_traded_prices_ignores_status (E E' : env) (w w' : world)
    (trading_pairs : list string) (resp resp' : response) :
  acquire_outcome E GET_TICKER_PATH_URL (tick w) = None →
  get_outcome E (get_rest_url GET_TICKER_PATH_URL) [] (S (tick w)) = Ok resp →
  acquire_outcome E' GET_TICKER_PATH_URL (tick w') = None →
  get_outcome E' (get_rest_url GET_TICKER_PATH_URL) [] (S (tick w')) = Ok resp' →
  json_outcome resp = json_outcome resp' →
  (get_last_traded_prices trading_pairs E w).1
  = (get_last_traded_prices trading_pairs E' w').1
  ∧ ∀ e, json_outcome resp = Failed e →
         (get_last_traded_prices trading_pairs E w).1 = Raise e.
Proof.
  intros Hacq Hget Hacq' Hget' Hbody.
  rewrite (get_last_traded_prices_run _ _ _ _ Hacq Hget).
  rewrite (get_last_traded_prices_run _ _ _ _ Hacq' Hget'), Hbody.
  split; [done|]. by intros e ->.
Qed.

(** X12: the order-book fetch on status 200: a failure to decode the body
    leaves the call as it is, a body without [result] raises the lookup
    error, and an empty [result.data] raises the index error. *)
Theorem get_order_book_data_malformed_body (E : env) (w : world)
    (trading_pair : string) (resp : response) :
  acquire_outcome E GET_ORDER_BOOK_PATH_URL (tick w) = None →
  get_outcome E (get_rest_url GET_ORDER_BOOK_PATH_URL)
              (order_book_params trading_pair) (S (tick w)) = Ok resp →
  status resp = 200 →
  (∀ e, json_outcome resp = Failed e →
        (get_order_book_data trading_pair E w).1 = Raise e)
  ∧ (∀ items, json_outcome resp = Ok (JObj items) →
              assoc "result" items = None →
              (get_order_book_data trading_pair E w).1 = Raise (KeyError "result"))
  ∧ (∀ body result, json_outcome resp = Ok body →
                    getitem "result" body = Ret result →
                    getitem "data" result = Ret (JList []) →
                    (get_order_book_data trading_pair E w).1 = Raise IndexError).
Proof.
  intros Hacq Hget Hst.
  assert (Hrun : (get_order_book_data trading_pair E w).1
            = match json_outcome resp with
              | Ok body => r ← getitem "result" body;
                           d ← getitem "data" r;
                           getitem_0 d
              | Failed e => Raise e
              end).
  { unfold get_order_book_data, with_execute_task, client_get, response_json.
    rewrite bind_run, (suspend_run (A:=unit)), Hacq. cbn [of_option].
    rewrite bind_run, suspend_run. cbn [tick advance record]. rewrite Hget.
    rewrite decide_False by (intros Hne; by apply Hne).
    rewrite lift_bind_run. by destruct (json_outcome resp). }
  rewrite Hrun. split_and!.
  - by intros e ->.
  - intros items -> Hmissing. cbn. by rewrite Hmissing.
  - intros body result -> Hres Hdata. by rewrite Hres; cbn; rewrite Hdata.
Qed.

End MoreRestFacts.

(** * Further properties of the relays *)

Section SessionFacts.

Lemma steady_ret {A} (a : A) : steady (mret a : M A).
Proof. done. Qed.

Lemma steady_lift {A} (r : res A) : steady (lift r).
Proof. done. Qed.

Lemma steady_emit ev : steady (emit ev).
Proof. done. Qed.

Lemma steady_suspend {A} ev (answer : env → nat → outcome A) :
  steady (suspend ev answer).
Proof. intros E w. by rewrite suspend_run. Qed.

Lemma steady_bind {A B} (m : M A) (f : A → M B) :
  steady m → (∀ a, steady (f a)) → steady (m ≫= f).
Proof.
  intros Hm Hf E w. rewrite bind_run. specialize (Hm E w).
  destruct (m E w) as [[a|e|] w1]; cbn [snd] in *; [|done..].
  by rewrite Hf.
Qed.

Lemma steady_try_except {A} (body handler : M A) :
  steady body → steady handler → steady (try_except body handler).
Proof.
  intros Hb Hh E w. unfold try_except. specialize (Hb E w).
  destruct (body E w) as [[a|e|] w1]; cbn [snd] in *; [done| |done].
  destruct (is_Exception e); [|done]. by rewrite Hh.
Qed.

Lemma steady_for_each {A} (xs : list A) (body : A → M unit) :
  (∀ x, steady (body x)) → steady (for_each xs body).
Proof.
  intros Hb. induction xs as [|x xs IH]; cbn [for_each].
  - apply steady_ret.
  - apply steady_bind; [apply Hb | intros _; exact IH].
Qed.

Lemma steady_async_for {A} fuel (next : M (option A)) (body : A → M unit) :
  steady next → (∀ x, steady (body x)) → steady (async_for fuel next body).
Proof.
  intros Hn Hb. induction fuel as [|fuel IH]; cbn [async_for].
  - apply steady_lift.
  - apply steady_bind; [exact Hn|]. intros [a|]; [|apply steady_ret].
    apply steady_bind; [apply Hb | intros _; exact IH].
Qed.

Lemma session_marks_app t1 t2 :
  session_marks (t1 ++ t2) = session_marks t1 ++ session_marks t2.
Proof. apply omap_app. Qed.

Lemma session_marks_inner evs : Forall inner_event evs → session_marks evs = [].
Proof.
  induction 1 as [|ev evs Hev _ IH]; [done|].
  unfold session_marks in *. cbn [omap list_omap]. unfold inner_event in Hev.
  by rewrite Hev.
Qed.

(** One round: the session is created first, and disconnected last unless
    the round is still running. *)
Lemma stream_round_marks (session : nat → M unit) (backoff : M unit) :
  (∀ ws, emits inner_event (session ws)) → (∀ ws, steady (session ws)) →
  emits inner_event backoff → steady backoff →
  ∀ E w,
    sessions (stream_round session backoff E w).2 = S (sessions w)
    ∧ session_marks (trace (stream_round session backoff E w).2)
      = session_marks (trace w)
        ++ Opened (sessions w)
           :: match (stream_round session backoff E w).1 with
              | Pending => []
              | _ => [Closed (sessions w)]
              end.
Proof.
  intros Hse Hss Hbe Hbs E w.
  unfold stream_round. rewrite bind_run. cbn [new_session].
  set (w0 := {| trace := trace w ++ [Created (sessions w)]; tick := tick w;
                sessions := S (sessions w) |}).
  pose proof (emits_try_except _ _ _ (Hse (sessions w)) Hbe E w0)
    as (evs & Htrace & Hinner).
  pose proof (steady_try_except _ _ (Hss (sessions w)) Hbs E w0) as Hsteady.
  apply session_marks_inner in Hinner.
  unfold try_finally.
  destruct (try_except (session (sessions w)) backoff E w0) as [rb w1].
  cbn [snd] in Htrace, Hsteady.
  assert (Hmarks : session_marks (trace w1)
                   = session_marks (trace w) ++ [Opened (sessions w)]).
  { rewrite Htrace, session_marks_app, Hinner, app_nil_r.
    subst w0. cbn [trace]. by rewrite session_marks_app. }
  unfold disconnect. rewrite (suspend_run (A:=unit)).
  destruct rb as [[]|e|]; cbn [fst snd trace sessions advance record].
  - destruct (of_option _) as [[]|e'];
      cbn [fst snd trace sessions advance record];
      rewrite session_marks_app, Hmarks, <- app_assoc; done.
  - destruct (of_option _) as [[]|e'];
      cbn [fst snd trace sessions advance record];
      rewrite session_marks_app, Hmarks, <- app_assoc; done.
  - by rewrite Hmarks.
Qed.

(** The loop of rounds: sessions are opened and closed one after the
    other; only the last one can still be open, and only while the relay
    is still running. *)
Lemma stream_loop_marks (session : nat → M unit) (backoff : M unit) :
  (∀ ws, emits inner_event (session ws)) → (∀ ws, steady (session ws)) →
  emits inner_event backoff → steady backoff →
  ∀ fuel E w,
    ∃ n tail,
      session_marks (trace (forever fuel (stream_round session backoff) E w).2)
      = session_marks (trace w) ++ rounds (sessions w) n ++ tail
      ∧ (tail = []
         ∨ tail = [Opened (sessions w + n)]
           ∧ (forever fuel (stream_round session backoff) E w).1 = Pending).
Proof.
  intros Hse Hss Hbe Hbs fuel E.
  induction fuel as [|fuel IH]; intros w.
  - exists 0%nat, []. cbn. rewrite app_nil_r. auto.
  - cbn [forever]. rewrite bind_run.
    destruct (stream_round_marks session backoff Hse Hss Hbe Hbs E w)
      as [Hcount Hmarks].
    destruct (stream_round session backoff E w) as [[[]|e|] w1];
      cbn [fst snd] in Hcount, Hmarks.
    + destruct (IH w1) as (n & tail & Hrest & Htail).
      exists (S n), tail. split.
      * rewrite Hrest, Hmarks, Hcount, <- !app_assoc. done.
      * rewrite Hcount in Htail. by rewrite Nat.add_succ_r.
    + exists 1%nat, []. cbn [rounds snd]. rewrite Hmarks, app_nil_r. auto.
    + exists 0%nat, [Opened (sessions w + 0)]. cbn [rounds snd fst].
      rewrite Hmarks, Nat.add_0_r. auto.
Qed.

End SessionFacts.

Section MoreRelayFacts.

Context `{Constants}.

Lemma stream_event_inner ev : stream_event ev → inner_event ev.
Proof. by destruct ev. Qed.

Lemma relay_trade_steady (trade : json) : steady (relay_trade trade).
Proof.
  unfold relay_trade, put_nowait.
  repeat (apply steady_bind; [apply steady_lift | intros ?]).
  apply steady_emit.
Qed.

Lemma trades_on_response_steady (response : json) :
  steady (trades_on_response response).
Proof.
  unfold trades_on_response.
  apply steady_bind; [apply steady_lift | intros r].
  destruct (is_None r); [apply steady_ret|].
  apply steady_bind; [apply steady_lift | intros trades].
  apply steady_for_each, relay_trade_steady.
Qed.

Lemma diffs_on_response_steady (response : json) :
  steady (diffs_on_response response).
Proof.
  unfold diffs_on_response, put_nowait.
  apply steady_bind; [apply steady_lift | intros r].
  destruct (is_None r); [apply steady_ret|].
  repeat (apply steady_bind; [apply steady_lift | intros ?]).
  apply steady_emit.
Qed.

Lemma trades_session_steady fuel trading_pairs ws :
  steady (trades_session fuel trading_pairs ws).
Proof.
  unfold trades_session, connect, subscribe, on_message.
  apply steady_bind; [apply steady_suspend | intros _].
  apply steady_bind; [apply steady_suspend | intros _].
  apply steady_async_for; [apply steady_suspend|].
  apply trades_on_response_steady.
Qed.

Lemma diffs_session_steady fuel trading_pairs ws :
  steady (diffs_session fuel trading_pairs ws).
Proof.
  unfold diffs_session, connect, subscribe, on_message.
  apply steady_bind; [apply steady_suspend | intros _].
  apply steady_bind; [apply steady_suspend | intros _].
  apply steady_async_for; [apply steady_suspend|].
  apply diffs_on_response_steady.
Qed.

Lemma backoff_inner level message delay :
  emits inner_event (logger level message ;; sleep delay)
  ∧ steady (logger level message ;; sleep delay).
Proof.
  unfold logger, sleep. split.
  - apply emits_bind; [by apply emits_emit | intros _; by apply emits_suspend].
  - apply steady_bind; [apply steady_emit | intros _; apply steady_suspend].
Qed.

(** X13: in the trade relay and in the diff relay, whatever the environment
    does, sessions are created and disconnected strictly one after the
    other: every session is disconnected exactly once, before the next one
    is created, none is disconnected that was not created, and only the
    newest session can still be open, which happens only while the relay is
    still running. *)
Theorem stream_relays_close_each_session (fuel : nat)
    (trading_pairs : list string) (E : env) (w : world) :
  (∃ n tail,
     session_marks (trace (listen_for_trades fuel trading_pairs E w).2)
     = session_marks (trace w) ++ rounds (sessions w) n ++ tail
     ∧ (tail = []
        ∨ tail = [Opened (sessions w + n)]
          ∧ (listen_for_trades fuel trading_pairs E w).1 = Pending))
  ∧ (∃ n tail,
       session_marks (trace (listen_for_order_book_diffs fuel trading_pairs E w).2)
       = session_marks (trace w) ++ rounds (sessions w) n ++ tail
       ∧ (tail = []
          ∨ tail = [Opened (sessions w + n)]
            ∧ (listen_for_order_book_diffs fuel trading_pairs E w).1 = Pending)).
Proof.
  split.
  - apply (stream_loop_marks (trades_session fuel trading_pairs) trades_backoff).
    + intros ws. eapply emits_weaken; [apply stream_event_inner|].
      apply trades_session_emits.
    + intros ws. apply trades_session_steady.
    + apply backoff_inner.
    + apply backoff_inner.
  - apply (stream_loop_marks (diffs_session fuel trading_pairs) diffs_backoff).
    + intros ws. eapply emits_weaken; [apply stream_event_inner|].
      apply diffs_session_emits.
    + intros ws. apply diffs_session_steady.
    + apply backoff_inner.
    + apply backoff_inner.
Qed.



(** What the refresh loop publishes for a pair, given the snapshot and the
    timestamp its fetch yields, if any. *)
Lemma for_each_snapshot_of_pair (E : env) (fetched : string → option (json * Z))
    (trading_pairs : list string) :
  (∀ k, sleep_outcome E k = None) →
  (∀ p, p ∈ trading_pairs →
     match fetched p with
     | Some (snapshot, ts) =>
         (∀ w0, (get_order_book_data p E w0).1 = Ret snapshot)
         ∧ ∃ t, getitem "t" snapshot = Ret t ∧ ms_timestamp_to_s t = Ret ts
     | None =>
         ∀ w0, ∃ e, (get_order_book_data p E w0).1 = Raise e
                    ∧ is_Exception e = true
     end) →
  ∀ w, ∃ w',
    for_each trading_pairs snapshot_of_pair E w = (Ret tt, w')
    ∧ published (trace w')
      = published (trace w)
        ++ omap (λ p, (λ st, snapshot_message_from_exchange st.1 st.2 p)
                        <$> fetched p) trading_pairs
    ∧ logged NETWORK (trace w')
      = logged NETWORK (trace w)
        ++ replicate (length (filter (λ p, fetched p = None) trading_pairs))
                     "Unexpected error with WebSocket connection."
    ∧ logged ERROR (trace w') = logged ERROR (trace w).
Proof.
  intros Hsleep.
  induction trading_pairs as [|p rest IH]; intros Hfetch w.
  - exists w. cbn. by rewrite !app_nil_r.
  - assert (Hrest : ∀ q, q ∈ rest →
              match fetched q with
              | Some (snapshot, ts) =>
                  (∀ w0, (get_order_book_data q E w0).1 = Ret snapshot)
                  ∧ ∃ t, getitem "t" snapshot = Ret t
                         ∧ ms_timestamp_to_s t = Ret ts
              | None =>
                  ∀ w0, ∃ e, (get_order_book_data q E w0).1 = Raise e
                             ∧ is_Exception e = true
              end)
      by (intros q Hq; by apply Hfetch, list_elem_of_further).
    specialize (IH Hrest).
    pose proof (Hfetch p (list_elem_of_here _ _)) as Hp.
    pose proof (get_order_book_data_silent E w p) as [Hpub Hlog].
    destruct (get_order_book_data p E w) as [r1 w1] eqn:Hf.
    cbn [snd] in Hpub, Hlog.
    cbn [for_each omap list_omap]. rewrite bind_run, filter_cons.
    destruct (fetched p) as [[snapshot ts]|] eqn:Hfp.
    + destruct Hp as [Hok (t & Ht & Hts)].
      specialize (Hok w). rewrite Hf in Hok. cbn in Hok. subst r1.
      rewrite (snapshot_of_pair_success E w w1 p _ _ _ Hf Ht Hts (Hsleep _)).
      destruct (IH (advance (record (Sleep (Qc_of_Z 5))
                      (record (Log DEBUG ("Saved order book snapshot for " +:+ p))
                         (record (Publish (snapshot_message_from_exchange
                                             snapshot ts p)) w1)))))
        as (w' & Hrun & Hp' & Hn' & He').
      exists w'. split; [exact Hrun|].
      cbn [trace advance record] in Hp', Hn', He'.
      rewrite !published_app, Hpub in Hp'.
      rewrite !logged_app, Hlog in Hn'. rewrite !logged_app, Hlog in He'.
      cbn in Hp', Hn', He'. rewrite !app_nil_r in Hn', He'.
      rewrite app_nil_r, <- app_assoc in Hp'.
      rewrite decide_False by done. cbn [fmap option_fmap option_map].
      split_and!; [by rewrite Hp', <- app_assoc | exact Hn' | exact He'].
    + destruct (Hp w) as (e & Hraise & Hexc).
      rewrite Hf in Hraise. cbn in Hraise. subst r1.
      rewrite (snapshot_of_pair_failure E w w1 p e Hf Hexc (Hsleep _)).
      destruct (IH (advance (record (Sleep (Qc_of_Z 5))
                      (record (Log NETWORK
                                 "Unexpected error with WebSocket connection.")
                              w1))))
        as (w' & Hrun & Hp' & Hn' & He').
      exists w'. split; [exact Hrun|].
      cbn [trace advance record] in Hp', Hn', He'.
      rewrite !published_app, Hpub in Hp'.
      rewrite !logged_app, Hlog in Hn'. rewrite !logged_app, Hlog in He'.
      cbn in Hp', Hn', He'. rewrite !app_nil_r in Hp', He'.
      rewrite app_nil_r, <- app_assoc in Hn'.
      rewrite decide_True by done. cbn [fmap option_fmap option_map length replicate].
      split_and!; [exact Hp' | by rewrite Hn', <- ?app_assoc | exact He'].
Qed.

(** X16: a refresh cycle over any list of pairs, each of whose fetches
    either always succeeds or always fails (sleeps elapsing): the cycle
    ends normally, the snapshots of exactly the succeeding pairs are
    published in the order of the list, one failure is logged per failing
    pair, and nothing is logged as an unexpected error. *)
Theorem refresh_cycle_isolates_failures (E : env) (w : world)
    (fetched : string → option (json * Z)) (trading_pairs : list string) :
  (∀ k, sleep_outcome E k = None) →
  (∀ p, p ∈ trading_pairs →
     match fetched p with
     | Some (snapshot, ts) =>
         (∀ w0, (get_order_book_data p E w0).1 = Ret snapshot)
         ∧ ∃ t, getitem "t" snapshot = Ret t ∧ ms_timestamp_to_s t = Ret ts
     | None =>
         ∀ w0, ∃ e, (get_order_book_data p E w0).1 = Raise e
                    ∧ is_Exception e = true
     end) →
  ∃ w',
    snapshots_round trading_pairs E w = (Ret tt, w')
    ∧ published (trace w')
      = published (trace w)
        ++ omap (λ p, (λ st, snapshot_message_from_exchange st.1 st.2 p)
                        <$> fetched p) trading_pairs
    ∧ logged NETWORK (trace w')
      = logged NETWORK (trace w)
        ++ replicate (length (filter (λ p, fetched p = None) trading_pairs))
                     "Unexpected error with WebSocket connection."
    ∧ logged ERROR (trace w') = logged ERROR (trace w).
Proof.
  intros Hsleep Hfetch.
  destruct (for_each_snapshot_of_pair E fetched trading_pairs Hsleep Hfetch w)
    as (w1 & Hrun & Hpub & Hnet & Herr).
  eexists. split.
  - unfold snapshots_round, try_except, snapshot_cycle.
    rewrite bind_run, Hrun. unfold Timestamp_utcnow, time.
    rewrite bind_run. cbv beta iota. rewrite bind_run. cbv beta iota.
    unfold sleep. rewrite (suspend_run (A:=unit)), Hsleep. reflexivity.
  - cbn [trace advance record].
    rewrite published_app, !logged_app, Hpub, Hnet, Herr. cbn.
    by rewrite !app_nil_r.
Qed.

(** X17: a fetched snapshot without a usable timestamp [t] is handled like
    a failed fetch: nothing is published for the pair, the failure is
    logged, and after the sleep the loop goes on. *)
Theorem snapshot_without_timestamp_skipped (E : env) (w w1 : world)
    (trading_pair : string) (snapshot : json) (e : exn) :
  get_order_book_data trading_pair E w = (Ret snapshot, w1) →
  (t ← getitem "t" snapshot; ms_timestamp_to_s t) = Raise e →
  sleep_outcome E (tick w1) = None →
  snapshot_of_pair trading_pair E w
  = (Ret tt,
     advance
       (record (Sleep (Qc_of_Z 5))
          (record (Log NETWORK "Unexpected error with WebSocket connection.")
                  w1)))
  ∧ published (trace (snapshot_of_pair trading_pair E w).2) = published (trace w).
Proof.
  intros Hfetch Hbad Hsleep.
  assert (Hexc : is_Exception e = true).
  { destruct (getitem "t" snapshot) as [t|e'|] eqn:Ht; cbn [mbind res_bind] in Hbad.
    - destruct t; cbn in Hbad; try discriminate; by injection Hbad as <-.
    - injection Hbad as <-. by apply getitem_raise in Ht as [-> | ->].
    - discriminate. }
  assert (Hrun : snapshot_of_pair trading_pair E w
            = (Ret tt,
               advance
                 (record (Sleep (Qc_of_Z 5))
                    (record (Log NETWORK
                               "Unexpected error with WebSocket connection.")
                            w1)))).
  { unfold snapshot_of_pair, try_except.
    rewrite bind_run, Hfetch, lift_bind_run.
    destruct (getitem "t" snapshot) as [t|e'|]; cbn [mbind res_bind] in Hbad;
      [rewrite lift_bind_run, Hbad|injection Hbad as ->|discriminate];
      rewrite Hexc; unfold snapshot_backoff, logger, emit, sleep;
      rewrite bind_run; cbv beta iota;
      rewrite (suspend_run (A:=unit)); cbn [tick record];
      by rewrite Hsleep. }
  split; [exact Hrun|]. rewrite Hrun. cbn [snd trace advance record].
  rewrite !published_app. cbn. rewrite !app_nil_r.
  pose proof (get_order_book_data_silent E w trading_pair) as [Hpub _].
  by rewrite Hfetch in Hpub.
Qed.


Lemma forever_not_ret (fuel : nat) (body : M unit) (E : env) : ∀ w,
  (forever fuel body E w).1 ≠ Ret tt.
Proof.
  induction fuel as [|fuel IH]; intros w; [discriminate|].
  cbn [forever]. rewrite bind_run.
  destruct (body E w) as [[[]|e|] w1]; [apply IH|discriminate..].
Qed.

(** X19: none of the three relays ever returns normally: each either is
    still running or has been ended by an exception. *)
Theorem relays_never_return (fuel : nat) (trading_pairs : list string)
    (E : env) (w : world) :
  (listen_for_trades fuel trading_pairs E w).1 ≠ Ret tt
  ∧ (listen_for_order_book_diffs fuel trading_pairs E w).1 ≠ Ret tt
  ∧ (listen_for_order_book_snapshots fuel trading_pairs E w).1 ≠ Ret tt.
Proof. split_and!; apply forever_not_ret. Qed.

(** One round of a stream relay whose session raised an exception other
    than a cancellation, the backoff sleep and the disconnect returning. *)
Lemma stream_round_recovers (session : nat → M unit) (level : log_level)
    (message : string) (delay : Throttler.Seconds) (E : env) (w w1 : world)
    (e : exn) :
  session (sessions w) E (new_session E w).2 = (Raise e, w1) →
  is_Exception e = true →
  sleep_outcome E (tick w1) = None →
  disconnect_outcome E (S (tick w1)) = None →
  stream_round session (logger level message ;; sleep delay) E w
  = (Ret tt,
     advance (record (Disconnect (sessions w))
                (advance (record (Sleep delay) (record (Log level message) w1))))).
Proof.
  intros Hsession Hexc Hsleep Hdisc.
  unfold stream_round. rewrite bind_run. cbn [new_session].
  cbn [new_session snd] in Hsession.
  unfold try_finally, try_except. rewrite Hsession, Hexc.
  unfold logger, emit, sleep. rewrite bind_run. cbv beta iota.
  rewrite (suspend_run (A:=unit)). cbn [tick record]. rewrite Hsleep.
  cbn [of_option]. unfold disconnect. rewrite (suspend_run (A:=unit)).
  cbn [tick advance record]. by rewrite Hdisc.
Qed.

(** One round whose cleanup fails. *)
Lemma stream_round_cleanup_fails (session : nat → M unit) (backoff : M unit)
    (E : env) (w w1 : world) (r : res unit) (e : exn) :
  try_except (session (sessions w)) backoff E (new_session E w).2 = (r, w1) →
  r ≠ Pending →
  disconnect_outcome E (tick w1) = Some e →
  stream_round session backoff E w
  = (Raise e, advance (record (Disconnect (sessions w)) w1)).
Proof.
  intros Hbody Hdone Hdisc.
  unfold stream_round. rewrite bind_run. cbn [new_session].
  cbn [new_session snd] in Hbody.
  unfold try_finally. rewrite Hbody.
  unfold disconnect. rewrite (suspend_run (A:=unit)), Hdisc. cbn [of_option].
  by destruct r as [[]|e'|].
Qed.

(** X20: recovery. When the session of a round of the trade relay (of the
    diff relay) raises an exception other than a cancellation, the error is
    logged once, the relay sleeps 5 (30) seconds, disconnects the session
    of that round, and the loop goes on with a new round. *)
Theorem stream_relays_reconnect_after_error (E : env) (fuel k : nat)
    (trading_pairs : list string) (w w1 : world) (e : exn) :
  is_Exception e = true →
  sleep_outcome E (tick w1) = None →
  disconnect_outcome E (S (tick w1)) = None →
  (trades_session fuel trading_pairs (sessions w) E (new_session E w).2
     = (Raise e, w1) →
   ∃ w2,
     forever (S k) (trades_round fuel trading_pairs) E w
     = forever k (trades_round fuel trading_pairs) E w2
     ∧ trace w2 = trace w1 ++ [Log ERROR "Unexpected error."; Sleep (Qc_of_Z 5);
                               Disconnect (sessions w)]
     ∧ sessions w2 = S (sessions w))
  ∧ (diffs_session fuel trading_pairs (sessions w) E (new_session E w).2
       = (Raise e, w1) →
     ∃ w2,
       forever (S k) (diffs_round fuel trading_pairs) E w
       = forever k (diffs_round fuel trading_pairs) E w2
       ∧ trace w2
         = trace w1 ++ [Log NETWORK "Unexpected error with WebSocket connection.";
                        Sleep (Qc_of_Z 30); Disconnect (sessions w)]
       ∧ sessions w2 = S (sessions w)).
Proof.
  intros Hexc Hsleep Hdisc. split; intros Hsession.
  - pose proof (stream_round_recovers (trades_session fuel trading_pairs) ERROR
                  "Unexpected error." (Qc_of_Z 5) E w w1 e Hsession Hexc Hsleep
                  Hdisc) as Hround.
    pose proof (trades_session_steady fuel trading_pairs (sessions w) E
                  (new_session E w).2) as Hsteady.
    rewrite Hsession in Hsteady. cbn [snd new_session sessions] in Hsteady.
    eexists. split; [|split].
    + cbn [forever]. rewrite bind_run.
      change (trades_round fuel trading_pairs)
        with (stream_round (trades_session fuel trading_pairs) trades_backoff).
      unfold trades_backoff. rewrite Hround. reflexivity.
    + cbn [trace advance record]. by rewrite <- !app_assoc.
    + cbn [sessions advance record]. exact Hsteady.
  - pose proof (stream_round_recovers (diffs_session fuel trading_pairs) NETWORK
                  "Unexpected error with WebSocket connection." (Qc_of_Z 30)
                  E w w1 e Hsession Hexc Hsleep Hdisc) as Hround.
    pose proof (diffs_session_steady fuel trading_pairs (sessions w) E
                  (new_session E w).2) as Hsteady.
    rewrite Hsession in Hsteady. cbn [snd new_session sessions] in Hsteady.
    eexists. split; [|split].
    + cbn [forever]. rewrite bind_run.
      change (diffs_round fuel trading_pairs)
        with (stream_round (diffs_session fuel trading_pairs) diffs_backoff).
      unfold diffs_backoff. rewrite Hround. reflexivity.
    + cbn [trace advance record]. by rewrite <- !app_assoc.
    + cbn [sessions advance record]. exact Hsteady.
Qed.

(** X21: the cleanup is not protected: when the [try] block of a round has
    finished, normally or through its handler, and [ws.disconnect()] raises
    in the [finally] clause, that exception ends the trade relay (the diff
    relay), whatever its kind. *)
Theorem failing_disconnect_ends_relay (E : env) (m : nat)
    (trading_pairs : list string) (w w1 : world) (r : res unit) (e : exn) :
  r ≠ Pending →
  disconnect_outcome E (tick w1) = Some e →
  (try_except (trades_session (S m) trading_pairs (sessions w)) trades_backoff
     E (new_session E w).2 = (r, w1) →
   listen_for_trades (S m) trading_pairs E w
   = (Raise e, advance (record (Disconnect (sessions w)) w1)))
  ∧ (try_except (diffs_session (S m) trading_pairs (sessions w)) diffs_backoff
       E (new_session E w).2 = (r, w1) →
     listen_for_order_book_diffs (S m) trading_pairs E w
     = (Raise e, advance (record (Disconnect (sessions w)) w1))).
Proof.
  intros Hdone Hdisc. split; intros Hbody.
  - unfold listen_for_trades. apply forever_raise.
    by apply (stream_round_cleanup_fails
                (trades_session (S m) trading_pairs) trades_backoff E w w1 r e).
  - unfold listen_for_order_book_diffs. apply forever_raise.
    by apply (stream_round_cleanup_fails
                (diffs_session (S m) trading_pairs) diffs_backoff E w w1 r e).
Qed.

(** X22: a stream that ends without an error is reconnected at once: the
    round of the trade relay connects, subscribes to one trade channel per
    pair, finds the message sequence exhausted, disconnects, and ends
    normally without a log entry and without a sleep. *)
Theorem ended_stream_reconnects_without_backoff (E : env) (fuel : nat)
    (trading_pairs : list string) (w : world) :
  connect_outcome E (tick w) = None →
  subscribe_outcome E (S (tick w)) = None →
  message_outcome E (S (S (tick w))) = Ok None →
  disconnect_outcome E (S (S (S (tick w)))) = None →
  ∃ w',
    trades_round (S fuel) trading_pairs E w = (Ret tt, w')
    ∧ trace w'
      = trace w
        ++ [Created (sessions w); Connect (sessions w);
            Subscribe (sessions w)
              ((λ pair, "trade." +:+ convert_to_exchange_trading_pair pair)
                 <$> trading_pairs);
            Receive (sessions w); Disconnect (sessions w)]
    ∧ tick w' = (tick w + 4)%nat.
Proof.
  intros Hconnect Hsubscribe Hmessage Hdisc.
  eexists. split; [|split].
  - unfold trades_round. rewrite bind_run. cbn [new_session].
    unfold try_finally, try_except, trades_session, connect, subscribe, on_message.
    rewrite bind_run, (suspend_run (A:=unit)). cbn [tick]. rewrite Hconnect.
    cbn [of_option]. rewrite bind_run, (suspend_run (A:=unit)).
    cbn [tick advance record]. rewrite Hsubscribe. cbn [of_option async_for].
    rewrite bind_run, suspend_run. cbn [tick advance record]. rewrite Hmessage.
    unfold disconnect, mret, M_ret. rewrite (suspend_run (A:=unit)).
    cbn [tick advance record]. rewrite Hdisc. reflexivity.
  - cbn [trace advance record]. by rewrite <- !app_assoc.
  - cbn [tick advance record]. lia.
Qed.

End MoreRelayFacts.

Section LoggerFacts.

Lemma logger_calls_cached (n : nat) (__name__ l : string) (st : Logging.class_state) :
  Logging._logger st = Some l →
  Logging.logger_calls n __name__ st = (replicate n l, st).
Proof.
  intros Hcached. induction n as [|n IH]; [done|].
  cbn [Logging.logger_calls]. unfold Logging.logger. rewrite Hcached.
  by rewrite IH.
Qed.

(** X23: the class-level logger is looked up at most once: over any number
    of calls, [logging.getLogger] is called once if no logger was cached and
    not at all otherwise, every call returns the same logger, and the
    logger stays cached. *)
Theorem logger_is_cached (n : nat) (__name__ : string) (st : Logging.class_state) :
  let l := default __name__ (Logging._logger st) in
  let calls := Logging.logger_calls (S n) __name__ st in
  calls.1 = replicate (S n) l
  ∧ Logging._logger calls.2 = Some l
  ∧ Logging.getLogger_calls calls.2
    = (Logging.getLogger_calls st
       + match Logging._logger st with None => 1 | Some _ => 0 end)%nat.
Proof.
  intros l calls. subst l calls.
  destruct (Logging._logger st) as [l|] eqn:Hcache.
  - rewrite (logger_calls_cached _ _ l _ Hcache). cbn. rewrite Hcache.
    split_and!; [done..|lia].
  - cbn [Logging.logger_calls]. unfold Logging.logger, Logging.getLogger.
    rewrite Hcache.
    rewrite (logger_calls_cached n __name__ __name__) by done.
    cbn. split_and!; [done..|lia].
Qed.

End LoggerFacts.

(** * The further properties at concrete inputs *)

Lemma no_request_without_permit_witness :
  @get_order_book_data crypto_com "BTC-USDT" cancelled_in_acquire start
  = (Raise CancelledError, advance (record (Acquire "public/get-book") start))
  ∧ @fetch_trading_pairs crypto_com cancelled_in_acquire start
    = (Raise CancelledError, advance (record (Acquire "public/get-ticker") start))
  ∧ @get_last_traded_prices crypto_com ["BTC-USDT"] cancelled_in_acquire start
    = (Raise CancelledError, advance (record (Acquire "public/get-ticker") start)).
Proof.
  destruct (no_request_without_permit (H := crypto_com) cancelled_in_acquire
              start CancelledError "BTC-USDT" ["BTC-USDT"]) as [Hbook Hticker].
  split; [exact (Hbook eq_refl) | exact (Hticker eq_refl)].
Defined.

Lemma fetch_trading_pairs_lists_symbols_witness :
  (@fetch_trading_pairs crypto_com (online (λ _, Ok ticker_response)) start).1
  = Ret ["BTC-USDT"; "BTC-USDT"; "ETH-USDT"]
  ∧ length ["BTC-USDT"; "BTC-USDT"; "ETH-USDT"] = length ticker_data.
Proof.
  apply (fetch_trading_pairs_lists_symbols (H := crypto_com)
           (online (λ _, Ok ticker_response)) start ticker_response
           (JObj [("result", JObj [("data", JList ticker_data)])])
           (JObj [("data", JList ticker_data)]) ticker_data
           ["BTC_USDT"; "BTC_USDT"; "ETH_USDT"]);
    try reflexivity.
  repeat constructor.
Defined.

Lemma fetch_trading_pairs_after_response_witness :
  (∃ pairs,
     (@fetch_trading_pairs crypto_com
        (online (λ _, Ok {| status := 503; json_outcome := Failed JSONDecodeError |}))
        start).1 = Ret pairs)
  ∨ ((@fetch_trading_pairs crypto_com
        (online (λ _, Ok {| status := 503; json_outcome := Failed JSONDecodeError |}))
        start).1 = Raise CancelledError
     ∧ 503 = 200
     ∧ @Failed json JSONDecodeError = Failed CancelledError).
Proof.
  exact (fetch_trading_pairs_after_response (H := crypto_com)
           (online (λ _, Ok {| status := 503;
                               json_outcome := Failed JSONDecodeError |}))
           start {| status := 503; json_outcome := Failed JSONDecodeError |}
           eq_refl eq_refl).
Defined.

Lemma get_last_traded_prices_no_pairs_witness :
  (@get_last_traded_prices crypto_com []
     (online (λ _, Ok {| status := 500; json_outcome := Ok (JList []) |})) start).1
  = Ret ∅.
Proof.
  exact (get_last_traded_prices_no_pairs (H := crypto_com)
           (online (λ _, Ok {| status := 500; json_outcome := Ok (JList []) |}))
           start {| status := 500; json_outcome := Ok (JList []) |} (JList [])
           eq_refl eq_refl eq_refl).
Defined.

Lemma get_last_traded_prices_entries_witness :
  "ETH-USDT" ∈ ["BTC-USDT"; "ETH-USDT"; "XRP-USDT"] ∧ is_None (JInt 7) = false.
Proof.
  apply (get_last_traded_prices_entries (H := crypto_com)
           (online (λ _, Ok ticker_response)) start
           ["BTC-USDT"; "ETH-USDT"; "XRP-USDT"]
           (<["ETH-USDT" := JInt 7]> ∅) "ETH-USDT" (JInt 7)).
  - reflexivity.
  - reflexivity.
Defined.

Lemma get_last_traded_prices_order_irrelevant_witness :
  (@get_last_traded_prices crypto_com ["BTC-USDT"; "ETH-USDT"]
     (online (λ _, Ok ticker_response)) start).1
  = (@get_last_traded_prices crypto_com ["ETH-USDT"; "BTC-USDT"; "ETH-USDT"]
       (online (λ _, Ok ticker_response)) start).1.
Proof.
  apply (get_last_traded_prices_order_irrelevant (H := crypto_com)
           (online (λ _, Ok ticker_response)) start
           ["BTC-USDT"; "ETH-USDT"] ["ETH-USDT"; "BTC-USDT"; "ETH-USDT"]
           ticker_response
           (JObj [("result", JObj [("data", JList ticker_data)])])
           (JObj [("data", JList ticker_data)]) ticker_data);
    try reflexivity.
  - repeat constructor; by eexists _, _.
  - intros t_pair. rewrite !elem_of_cons, !elem_of_nil. tauto.
Defined.

Lemma get_last_traded_prices_ignores_status_witness :
  (@get_last_traded_prices crypto_com ["ETH-USDT"]
     (online (λ _, Ok ticker_response)) start).1
  = (@get_last_traded_prices crypto_com ["ETH-USDT"]
       (online (λ _, Ok {| status := 500;
                           json_outcome := json_outcome ticker_response |}))
       start).1.
Proof.
  exact (proj1 (get_last_traded_prices_ignores_status (H := crypto_com)
                  (online (λ _, Ok ticker_response))
                  (online (λ _, Ok {| status := 500;
                                      json_outcome := json_outcome ticker_response |}))
                  start start ["ETH-USDT"] ticker_response
                  {| status := 500; json_outcome := json_outcome ticker_response |}
                  eq_refl eq_refl eq_refl eq_refl eq_refl)).
Defined.

Lemma get_order_book_data_malformed_body_witness :
  (@get_order_book_data crypto_com "BTC-USDT"
     (online (λ _, Ok {| status := 200;
                         json_outcome :=
                           Ok (JObj [("result", JObj [("data", JList [])])]) |}))
     start).1 = Raise IndexError.
Proof.
  destruct (get_order_book_data_malformed_body (H := crypto_com)
              (online (λ _, Ok {| status := 200;
                                  json_outcome :=
                                    Ok (JObj [("result", JObj [("data", JList [])])]) |}))
              start "BTC-USDT"
              {| status := 200;
                 json_outcome := Ok (JObj [("result", JObj [("data", JList [])])]) |}
              eq_refl eq_refl eq_refl) as (_ & _ & Hempty).
  exact (Hempty _ _ eq_refl eq_refl eq_refl).
Defined.



Lemma refresh_cycle_isolates_failures_witness :
  ∃ w',
    @snapshots_round crypto_com ["BTC-USDT"; "ETH-USDT"; "XRP-USDT"; "ETH-USDT"]
      (online eth_fails) start = (Ret tt, w')
    ∧ published (trace w')
      = [snapshot_message_from_exchange (book 1700000000000) 1700000000 "BTC-USDT";
         snapshot_message_from_exchange (book 1700000000000) 1700000000 "XRP-USDT"]
    ∧ logged NETWORK (trace w')
      = ["Unexpected error with WebSocket connection.";
         "Unexpected error with WebSocket connection."]
    ∧ logged ERROR (trace w') = [].
Proof.
  destruct (refresh_cycle_isolates_failures (H := crypto_com) (online eth_fails)
              start
              (λ p, if decide (p = "ETH-USDT") then None
                    else Some (book 1700000000000, 1700000000))
              ["BTC-USDT"; "ETH-USDT"; "XRP-USDT"; "ETH-USDT"])
    as (w' & Hrun & Hpub & Hnet & Herr).
  - intros k. reflexivity.
  - intros p Hp.
    repeat (apply elem_of_cons in Hp as [->|Hp];
            [cbn; first [ split; [intros w0; reflexivity
                                 | by exists (JInt 1700000000000)]
                        | intros w0; by exists ClientError ] |]).
    by apply elem_of_nil in Hp.
  - exists w'. split; [exact Hrun|].
    split_and!; [exact Hpub | exact Hnet | exact Herr].
Defined.

Lemma snapshot_without_timestamp_skipped_witness :
  @snapshot_of_pair crypto_com "BTC-USDT"
    (online (λ _, Ok {| status := 200;
                        json_outcome :=
                          Ok (JObj [("result", JObj [("data", JList [JObj []])])]) |}))
    start
  = (Ret tt,
     advance
       (record (Sleep (Qc_of_Z 5))
          (record (Log NETWORK "Unexpected error with WebSocket connection.")
             (@get_order_book_data crypto_com "BTC-USDT"
                (online (λ _, Ok {| status := 200;
                                    json_outcome :=
                                      Ok (JObj [("result",
                                                 JObj [("data", JList [JObj []])])]) |}))
                start).2)))
  ∧ published (trace (@snapshot_of_pair crypto_com "BTC-USDT"
       (online (λ _, Ok {| status := 200;
                           json_outcome :=
                             Ok (JObj [("result", JObj [("data", JList [JObj []])])]) |}))
       start).2) = published (trace start).
Proof.
  apply (snapshot_without_timestamp_skipped (H := crypto_com)
           (online (λ _, Ok {| status := 200;
                               json_outcome :=
                                 Ok (JObj [("result",
                                            JObj [("data", JList [JObj []])])]) |}))
           start _ "BTC-USDT" (JObj []) (KeyError "t"));
    reflexivity.
Defined.

Lemma stream_relays_reconnect_after_error_witness :
  (∃ w2,
     forever 3 (@trades_round crypto_com 1 ["BTC-USDT"]) unreachable start
     = forever 2 (@trades_round crypto_com 1 ["BTC-USDT"]) unreachable w2
     ∧ trace w2 = [Created 0; Connect 0] ++ [Log ERROR "Unexpected error.";
                                            Sleep (Qc_of_Z 5); Disconnect 0]
     ∧ sessions w2 = 1%nat)
  ∧ (∃ w2,
       forever 3 (@diffs_round crypto_com 1 ["BTC-USDT"]) unreachable start
       = forever 2 (@diffs_round crypto_com 1 ["BTC-USDT"]) unreachable w2
       ∧ trace w2
         = [Created 0; Connect 0]
           ++ [Log NETWORK "Unexpected error with WebSocket connection.";
               Sleep (Qc_of_Z 30); Disconnect 0]
       ∧ sessions w2 = 1%nat).
Proof.
  destruct (stream_relays_reconnect_after_error (H := crypto_com) unreachable
              1 2 ["BTC-USDT"] start
              {| trace := [Created 0; Connect 0]; tick := 1; sessions := 1 |}
              ClientError eq_refl eq_refl eq_refl) as [Htrades Hdiffs].
  split; [exact (Htrades eq_refl) | exact (Hdiffs eq_refl)].
Defined.


Lemma failing_disconnect_ends_relay_witness :
  (@listen_for_trades crypto_com 1 ["BTC-USDT"] closing_fails start).1
  = Raise ClientError
  ∧ (@listen_for_order_book_diffs crypto_com 1 ["BTC-USDT"] closing_fails start).1
    = Raise ClientError.
Proof.
  split.
  - exact (f_equal fst
             (proj1 (failing_disconnect_ends_relay (H := crypto_com) closing_fails
                       0 ["BTC-USDT"] start _ (Ret tt) ClientError
                       (λ Hp, eq_ind (Ret tt) (λ r, match r with
                                                    | Pending => False
                                                    | _ => True
                                                    end) I Pending Hp)
                       eq_refl)
                    eq_refl)).
  - exact (f_equal fst
             (proj2 (failing_disconnect_ends_relay (H := crypto_com) closing_fails
                       0 ["BTC-USDT"] start _ (Ret tt) ClientError
                       (λ Hp, eq_ind (Ret tt) (λ r, match r with
                                                    | Pending => False
                                                    | _ => True
                                                    end) I Pending Hp)
                       eq_refl)
                    eq_refl)).
Defined.

Lemma ended_stream_reconnects_without_backoff_witness :
  ∃ w',
    @trades_round crypto_com 1 ["BTC-USDT"; "ETH-USDT"] (online eth_fails) start
    = (Ret tt, w')
    ∧ trace w'
      = trace start
        ++ [Created 0; Connect 0;
            Subscribe 0 ((λ pair, "trade." +:+ replace_char "-"%char "_"%char pair)
                           <$> ["BTC-USDT"; "ETH-USDT"]);
            Receive 0; Disconnect 0]
    ∧ tick w' = 4%nat.
Proof.
  exact (ended_stream_reconnects_without_backoff (H := crypto_com)
           (online eth_fails) 0 ["BTC-USDT"; "ETH-USDT"] start
           eq_refl eq_refl eq_refl eq_refl).
Defined.
